(** * The replication planner of sling-cli ([core/sling/replication.go])

    A shallow embedding of the planner: stream defaulting, wildcard
    expansion, stream selection, task compilation, the stream-count
    assertion and the runtime state.  Go maps are finite maps ([gmap]),
    a nil pointer is [None], a method on [*ReplicationConfig] takes the
    configuration and returns the configuration it leaves behind, and a
    run-time panic (nil dereference) is the outcome [Panic]. *)

From Stdlib Require Import String Ascii ZArith Bool.
From stdpp Require Import base option list gmap sets strings.

Open Scope string_scope.
Open Scope list_scope.

(** ** Go's [strings] package, on byte strings *)

Module strings.

Fixpoint HasPrefix (s pre : string) : bool :=
  match pre, s with
  | EmptyString, _ => true
  | String a pre', String b s' => Ascii.eqb a b && HasPrefix s' pre'
  | String _ _, EmptyString => false
  end.

Fixpoint Contains (s substr : string) : bool :=
  HasPrefix s substr ||
  match s with
  | EmptyString => false
  | String _ s' => Contains s' substr
  end.

Fixpoint drop_chars (n : nat) (s : string) : string :=
  match n, s with
  | S n', String _ s' => drop_chars n' s'
  | _, _ => s
  end.

Definition TrimPrefix (s pre : string) : string :=
  if HasPrefix s pre then drop_chars (String.length pre) s else s.

(** [ToLower] on the ASCII letters; bytes outside [A-Z] are kept. *)
Definition lower_ascii (c : ascii) : ascii :=
  let n := nat_of_ascii c in
  if (65 <=? n)%nat && (n <=? 90)%nat then ascii_of_nat (n + 32) else c.

Fixpoint ToLower (s : string) : string :=
  match s with
  | EmptyString => EmptyString
  | String c s' => String (lower_ascii c) (ToLower s')
  end.

(** [strings.ReplaceAll(s, c, "")] for a one-character [c]. *)
Fixpoint RemoveAll (s : string) (c : ascii) : string :=
  match s with
  | EmptyString => EmptyString
  | String a s' => if Ascii.eqb a c then RemoveAll s' c else String a (RemoveAll s' c)
  end.

Definition EqualFold (s t : string) : bool := String.eqb (ToLower s) (ToLower t).

End strings.

(** ** Outcomes *)

Inductive Error :=
| ErrMissingKey (key : string)
| ErrParse (what : string)
| ErrInvalidWildcard
| ErrNewConnection (source : string)
| ErrInvalidConnection (source : string)
| ErrConnect (source : string)
| ErrParsePattern (pattern : string)
| ErrDiscovery (pattern : string)
| ErrWildcards (cause : Error)
| ErrConflictingTags
| ErrMissingTarget (stream : string)
| ErrPrepare (stream : string)
| ErrFormatMap
| ErrRuntimeState (cause : Error)
| ErrStreamCntAtLeast (atLeast got : Z) (names : list string)
| ErrStreamCnt (expected got : Z) (names : list string).

Inductive result (A : Type) :=
| Ok (a : A)
| Err (e : Error)
| Panic.

Arguments Ok {A} a.
Arguments Err {A} e.
Arguments Panic {A}.

Definition is_Ok {A} (r : result A) : bool :=
  match r with Ok _ => true | _ => false end.

(** ** Data model *)

(** A Go [any] holding what the planner stores in it. *)
Inductive AnyVal :=
| ANil
| AStr (s : string)
| AList (l : list string)
| AColumns (cols : list (string * string)).

Definition any_is_nil (a : AnyVal) : bool :=
  match a with ANil => true | _ => false end.

Record HookMap := {
  hk_Start : list AnyVal;
  hk_End : list AnyVal;
  hk_Pre : list AnyVal;
  hk_Post : list AnyVal
}.

Definition emptyHooks : HookMap :=
  {| hk_Start := []; hk_End := []; hk_Pre := []; hk_Post := [] |}.

(** The option bags are declared outside [replication.go]; the fields
    the planner reads or writes are kept, the others are in [*_Other]. *)
Record SourceOptions := {
  so_Limit : option Z;
  so_Offset : option Z;
  so_Range : option string;
  so_FileSelect : option (list string);
  so_Columns : AnyVal;
  so_Other : list (string * string)
}.

Record TargetOptions := {
  to_FileMaxBytes : option Z;
  to_FileMaxRows : option Z;
  to_Other : list (string * string)
}.

Definition zeroSourceOptions : SourceOptions :=
  {| so_Limit := None; so_Offset := None; so_Range := None;
     so_FileSelect := None; so_Columns := ANil; so_Other := [] |}.

Definition zeroTargetOptions : TargetOptions :=
  {| to_FileMaxBytes := None; to_FileMaxRows := None; to_Other := [] |}.

(** [g.PtrVal]: the pointee, or the zero value for nil. *)
Definition PtrVal {A} (zero : A) (p : option A) : A := default zero p.

Record ReplicationStreamConfig := {
  ID : string;
  Description : string;
  Mode : string;
  Object : string;
  Select : list string;
  Where : string;
  PrimaryKeyI : AnyVal;
  UpdateKey : string;
  SQL : string;
  Tags : list string;
  SourceOptions_ : option SourceOptions;
  TargetOptions_ : option TargetOptions;
  Schedule : string;
  Disabled : bool;
  Single : option bool;
  Transforms : AnyVal;
  Columns : AnyVal;
  Hooks : HookMap
}.

Definition zeroStream : ReplicationStreamConfig :=
  {| ID := ""; Description := ""; Mode := ""; Object := ""; Select := [];
     Where := ""; PrimaryKeyI := ANil; UpdateKey := ""; SQL := ""; Tags := [];
     SourceOptions_ := None; TargetOptions_ := None; Schedule := "";
     Disabled := false; Single := None; Transforms := ANil; Columns := ANil;
     Hooks := emptyHooks |}.

(** Field assignments [stream.F = v]. *)
Definition set_Mode v s := {| ID := ID s; Description := Description s; Mode := v; Object := Object s; Select := Select s; Where := Where s; PrimaryKeyI := PrimaryKeyI s; UpdateKey := UpdateKey s; SQL := SQL s; Tags := Tags s; SourceOptions_ := SourceOptions_ s; TargetOptions_ := TargetOptions_ s; Schedule := Schedule s; Disabled := Disabled s; Single := Single s; Transforms := Transforms s; Columns := Columns s; Hooks := Hooks s |}.
Definition set_Object v s := {| ID := ID s; Description := Description s; Mode := Mode s; Object := v; Select := Select s; Where := Where s; PrimaryKeyI := PrimaryKeyI s; UpdateKey := UpdateKey s; SQL := SQL s; Tags := Tags s; SourceOptions_ := SourceOptions_ s; TargetOptions_ := TargetOptions_ s; Schedule := Schedule s; Disabled := Disabled s; Single := Single s; Transforms := Transforms s; Columns := Columns s; Hooks := Hooks s |}.
Definition set_Select v s := {| ID := ID s; Description := Description s; Mode := Mode s; Object := Object s; Select := v; Where := Where s; PrimaryKeyI := PrimaryKeyI s; UpdateKey := UpdateKey s; SQL := SQL s; Tags := Tags s; SourceOptions_ := SourceOptions_ s; TargetOptions_ := TargetOptions_ s; Schedule := Schedule s; Disabled := Disabled s; Single := Single s; Transforms := Transforms s; Columns := Columns s; Hooks := Hooks s |}.
Definition set_Where v s := {| ID := ID s; Description := Description s; Mode := Mode s; Object := Object s; Select := Select s; Where := v; PrimaryKeyI := PrimaryKeyI s; UpdateKey := UpdateKey s; SQL := SQL s; Tags := Tags s; SourceOptions_ := SourceOptions_ s; TargetOptions_ := TargetOptions_ s; Schedule := Schedule s; Disabled := Disabled s; Single := Single s; Transforms := Transforms s; Columns := Columns s; Hooks := Hooks s |}.
Definition set_PrimaryKeyI v s := {| ID := ID s; Description := Description s; Mode := Mode s; Object := Object s; Select := Select s; Where := Where s; PrimaryKeyI := v; UpdateKey := UpdateKey s; SQL := SQL s; Tags := Tags s; SourceOptions_ := SourceOptions_ s; TargetOptions_ := TargetOptions_ s; Schedule := Schedule s; Disabled := Disabled s; Single := Single s; Transforms := Transforms s; Columns := Columns s; Hooks := Hooks s |}.
Definition set_UpdateKey v s := {| ID := ID s; Description := Description s; Mode := Mode s; Object := Object s; Select := Select s; Where := Where s; PrimaryKeyI := PrimaryKeyI s; UpdateKey := v; SQL := SQL s; Tags := Tags s; SourceOptions_ := SourceOptions_ s; TargetOptions_ := TargetOptions_ s; Schedule := Schedule s; Disabled := Disabled s; Single := Single s; Transforms := Transforms s; Columns := Columns s; Hooks := Hooks s |}.
Definition set_SQL v s := {| ID := ID s; Description := Description s; Mode := Mode s; Object := Object s; Select := Select s; Where := Where s; PrimaryKeyI := PrimaryKeyI s; UpdateKey := UpdateKey s; SQL := v; Tags := Tags s; SourceOptions_ := SourceOptions_ s; TargetOptions_ := TargetOptions_ s; Schedule := Schedule s; Disabled := Disabled s; Single := Single s; Transforms := Transforms s; Columns := Columns s; Hooks := Hooks s |}.
Definition set_Tags v s := {| ID := ID s; Description := Description s; Mode := Mode s; Object := Object s; Select := Select s; Where := Where s; PrimaryKeyI := PrimaryKeyI s; UpdateKey := UpdateKey s; SQL := SQL s; Tags := v; SourceOptions_ := SourceOptions_ s; TargetOptions_ := TargetOptions_ s; Schedule := Schedule s; Disabled := Disabled s; Single := Single s; Transforms := Transforms s; Columns := Columns s; Hooks := Hooks s |}.
Definition set_SourceOptions v s := {| ID := ID s; Description := Description s; Mode := Mode s; Object := Object s; Select := Select s; Where := Where s; PrimaryKeyI := PrimaryKeyI s; UpdateKey := UpdateKey s; SQL := SQL s; Tags := Tags s; SourceOptions_ := v; TargetOptions_ := TargetOptions_ s; Schedule := Schedule s; Disabled := Disabled s; Single := Single s; Transforms := Transforms s; Columns := Columns s; Hooks := Hooks s |}.
Definition set_TargetOptions v s := {| ID := ID s; Description := Description s; Mode := Mode s; Object := Object s; Select := Select s; Where := Where s; PrimaryKeyI := PrimaryKeyI s; UpdateKey := UpdateKey s; SQL := SQL s; Tags := Tags s; SourceOptions_ := SourceOptions_ s; TargetOptions_ := v; Schedule := Schedule s; Disabled := Disabled s; Single := Single s; Transforms := Transforms s; Columns := Columns s; Hooks := Hooks s |}.
Definition set_Schedule v s := {| ID := ID s; Description := Description s; Mode := Mode s; Object := Object s; Select := Select s; Where := Where s; PrimaryKeyI := PrimaryKeyI s; UpdateKey := UpdateKey s; SQL := SQL s; Tags := Tags s; SourceOptions_ := SourceOptions_ s; TargetOptions_ := TargetOptions_ s; Schedule := v; Disabled := Disabled s; Single := Single s; Transforms := Transforms s; Columns := Columns s; Hooks := Hooks s |}.
Definition set_Disabled v s := {| ID := ID s; Description := Description s; Mode := Mode s; Object := Object s; Select := Select s; Where := Where s; PrimaryKeyI := PrimaryKeyI s; UpdateKey := UpdateKey s; SQL := SQL s; Tags := Tags s; SourceOptions_ := SourceOptions_ s; TargetOptions_ := TargetOptions_ s; Schedule := Schedule s; Disabled := v; Single := Single s; Transforms := Transforms s; Columns := Columns s; Hooks := Hooks s |}.
Definition set_Single v s := {| ID := ID s; Description := Description s; Mode := Mode s; Object := Object s; Select := Select s; Where := Where s; PrimaryKeyI := PrimaryKeyI s; UpdateKey := UpdateKey s; SQL := SQL s; Tags := Tags s; SourceOptions_ := SourceOptions_ s; TargetOptions_ := TargetOptions_ s; Schedule := Schedule s; Disabled := Disabled s; Single := v; Transforms := Transforms s; Columns := Columns s; Hooks := Hooks s |}.
Definition set_Transforms v s := {| ID := ID s; Description := Description s; Mode := Mode s; Object := Object s; Select := Select s; Where := Where s; PrimaryKeyI := PrimaryKeyI s; UpdateKey := UpdateKey s; SQL := SQL s; Tags := Tags s; SourceOptions_ := SourceOptions_ s; TargetOptions_ := TargetOptions_ s; Schedule := Schedule s; Disabled := Disabled s; Single := Single s; Transforms := v; Columns := Columns s; Hooks := Hooks s |}.
Definition set_Columns v s := {| ID := ID s; Description := Description s; Mode := Mode s; Object := Object s; Select := Select s; Where := Where s; PrimaryKeyI := PrimaryKeyI s; UpdateKey := UpdateKey s; SQL := SQL s; Tags := Tags s; SourceOptions_ := SourceOptions_ s; TargetOptions_ := TargetOptions_ s; Schedule := Schedule s; Disabled := Disabled s; Single := Single s; Transforms := Transforms s; Columns := v; Hooks := Hooks s |}.
Definition set_Hooks v s := {| ID := ID s; Description := Description s; Mode := Mode s; Object := Object s; Select := Select s; Where := Where s; PrimaryKeyI := PrimaryKeyI s; UpdateKey := UpdateKey s; SQL := SQL s; Tags := Tags s; SourceOptions_ := SourceOptions_ s; TargetOptions_ := TargetOptions_ s; Schedule := Schedule s; Disabled := Disabled s; Single := Single s; Transforms := Transforms s; Columns := Columns s; Hooks := v |}.

(** A connection as the planner sees it: its name, its type and the
    data entries the runtime state reads. *)
Record Connection := {
  conn_Name : string;
  conn_Type : string;
  conn_Data : gmap string string
}.

Definition zeroConnection : Connection :=
  {| conn_Name := ""; conn_Type := ""; conn_Data := ∅ |}.

(** [Type.IsDb()] and [Type.IsFile()] of a connection type. *)
Inductive ConnKind := KindDb | KindFile | KindOther.

(** The task record [Config], declared outside [replication.go]: the
    fields [Compile] fills and [RuntimeState] reads. *)
Record Source := {
  src_Conn : string;
  src_Stream : string;
  src_Query : string;
  src_Select : list string;
  src_Where : string;
  src_PrimaryKeyI : AnyVal;
  src_UpdateKey : string;
  src_Options : option SourceOptions
}.

Record Target := {
  tgt_Conn : string;
  tgt_Object : string;
  tgt_Columns : AnyVal;
  tgt_Options : option TargetOptions
}.

Record Config := {
  cfg_Source : Source;
  cfg_Target : Target;
  cfg_Mode : string;
  cfg_Transforms : AnyVal;
  cfg_Env : gmap string string;
  StreamName : string;
  IncrementalValStr : string;
  ReplicationStream : option ReplicationStreamConfig;
  SrcConn : Connection;
  TgtConn : Connection
}.

(** Runtime state. *)
Record ConnState := {
  cs_Name : string;
  cs_Type : string;
  cs_Kind : string;
  cs_Bucket : string;
  cs_Container : string;
  cs_Database : string;
  cs_Instance : string;
  cs_Schema : string
}.

Record StreamState := {
  ss_FileFolder : string;
  ss_FileName : string;
  ss_FileExt : string;
  ss_FilePath : string;
  ss_Name : string;
  ss_Schema : string;
  ss_Table : string;
  ss_FullName : string
}.

Record ObjectState := {
  os_Name : string;
  os_Schema : string;
  os_Table : string;
  os_FullName : string
}.

Inductive ExecStatus :=
| ExecStatusCreated | ExecStatusRunning | ExecStatusSuccess
| ExecStatusError | ExecStatusSkipped.

Record RunState := {
  run_ID : string;
  run_Status : ExecStatus;
  run_Stream : StreamState;
  run_Object : ObjectState
}.

Record RuntimeState := {
  st_Hooks : gmap string (gmap string string);
  st_Env : gmap string string;
  st_Timestamp : Z;
  st_Source : ConnState;
  st_Target : ConnState;
  st_Runs : gmap string RunState
}.

Definition newConnState (name : string) : ConnState :=
  {| cs_Name := name; cs_Type := ""; cs_Kind := ""; cs_Bucket := "";
     cs_Container := ""; cs_Database := ""; cs_Instance := ""; cs_Schema := "" |}.

(** The root entity.  [maps_Streams] is the raw map of each stream,
    of which only the key set is ever consulted. *)
Record ReplicationConfig := {
  rc_Source : string;
  rc_Target : string;
  rc_Hooks : HookMap;
  Defaults : ReplicationStreamConfig;
  Streams : gmap string (option ReplicationStreamConfig);
  rc_Env : gmap string string;
  Tasks : list Config;
  Compiled : bool;
  streamsOrdered : list string;
  maps_Streams : gmap string (gset string);
  state : option RuntimeState
}.

Definition with_Streams v rd := {| rc_Source := rc_Source rd; rc_Target := rc_Target rd; rc_Hooks := rc_Hooks rd; Defaults := Defaults rd; Streams := v; rc_Env := rc_Env rd; Tasks := Tasks rd; Compiled := Compiled rd; streamsOrdered := streamsOrdered rd; maps_Streams := maps_Streams rd; state := state rd |}.
Definition with_Tasks v rd := {| rc_Source := rc_Source rd; rc_Target := rc_Target rd; rc_Hooks := rc_Hooks rd; Defaults := Defaults rd; Streams := Streams rd; rc_Env := rc_Env rd; Tasks := v; Compiled := Compiled rd; streamsOrdered := streamsOrdered rd; maps_Streams := maps_Streams rd; state := state rd |}.
Definition with_Compiled v rd := {| rc_Source := rc_Source rd; rc_Target := rc_Target rd; rc_Hooks := rc_Hooks rd; Defaults := Defaults rd; Streams := Streams rd; rc_Env := rc_Env rd; Tasks := Tasks rd; Compiled := v; streamsOrdered := streamsOrdered rd; maps_Streams := maps_Streams rd; state := state rd |}.
Definition with_streamsOrdered v rd := {| rc_Source := rc_Source rd; rc_Target := rc_Target rd; rc_Hooks := rc_Hooks rd; Defaults := Defaults rd; Streams := Streams rd; rc_Env := rc_Env rd; Tasks := Tasks rd; Compiled := Compiled rd; streamsOrdered := v; maps_Streams := maps_Streams rd; state := state rd |}.
Definition with_maps_Streams v rd := {| rc_Source := rc_Source rd; rc_Target := rc_Target rd; rc_Hooks := rc_Hooks rd; Defaults := Defaults rd; Streams := Streams rd; rc_Env := rc_Env rd; Tasks := Tasks rd; Compiled := Compiled rd; streamsOrdered := streamsOrdered rd; maps_Streams := v; state := state rd |}.
Definition with_state v rd := {| rc_Source := rc_Source rd; rc_Target := rc_Target rd; rc_Hooks := rc_Hooks rd; Defaults := Defaults rd; Streams := Streams rd; rc_Env := rc_Env rd; Tasks := Tasks rd; Compiled := Compiled rd; streamsOrdered := streamsOrdered rd; maps_Streams := maps_Streams rd; state := v |}.

(** [rd.Streams[name]]: a missing key reads as the nil pointer. *)
Definition stream_at (rd : ReplicationConfig) (name : string)
  : option ReplicationStreamConfig :=
  mjoin (Streams rd !! name).

(** Wildcards. *)
Record Table := { tbl_FullName : string }.

Record FileNode := { node_Path : string; node_URI : string }.

Record Wildcard := {
  Pattern : string;
  StreamNames : list string;
  NodeMap : gmap string FileNode;
  TableMap : gmap string Table
}.

Definition Wildcards_Patterns (ws : list Wildcard) : list string :=
  map Pattern ws.

(** The result [(ok, items, err)] of [Connection.Discover]. *)
Inductive Discovered (A : Type) :=
| DiscoverErr
| DiscoverNotOk
| DiscoverOk (items : list A).

Arguments DiscoverErr {A}.
Arguments DiscoverNotOk {A}.
Arguments DiscoverOk {A} items.

(** The YAML document as [yaml.MapSlice] presents it: mappings keep the
    order of their entries. *)
#[warnings="-register-all"]
Inductive YamlNode :=
| YNull
| YScalar (s : string)
| YMap (entries : list (string * YamlNode)).

(** ** The collaborators

    What the planner calls outside [replication.go]: the connection
    registry and the Discoverer, the task preparer, the glob compiler,
    [cast.ToInt], the process environment, the JSON marshaller, the
    typed decoders and the option-bag merger. *)
Record Externals := {
  GetLocalConns : list Connection;
  LocalFileConnEntry : Connection;
  NewConnectionFromURL : string -> option Connection;
  TypeKind : string -> ConnKind;
  TypeKindName : string -> string;
  ConnectDatabase : Connection -> bool;
  ConnectFile : Connection -> bool;
  ParseTableNameSchema : string -> string -> option string;
  ParseURLTypePath : string -> option string;
  DiscoverTables : Connection -> string -> Discovered Table;
  DiscoverFiles : Connection -> string -> Discovered FileNode;
  Prepare : Config -> option Config;
  GetFormatMap : Config -> option (gmap string string);
  CleanName : string -> string;
  castKeyArray : AnyVal -> list string;
  MarshalKeys : option ReplicationStreamConfig -> gset string;
  DecodeStream : YamlNode -> option ReplicationStreamConfig;
  DecodeHooks : YamlNode -> option HookMap;
  SourceOptions_SetDefaults : SourceOptions -> SourceOptions -> SourceOptions;
  TargetOptions_SetDefaults : TargetOptions -> TargetOptions -> TargetOptions;
  glob_Compile : string -> option (string -> bool);
  ToInt : string -> Z;
  Getenv : string -> string
}.

(** ** The planner *)

Section Planner.

Context (X : Externals).

(** [Normalize]: strip backticks and double quotes, then lowercase. *)
Definition Normalize (n : string) : string :=
  let n := strings.RemoveAll n "`"%char in
  let n := strings.RemoveAll n "034"%char in
  strings.ToLower n.

(** [GetStream]: some stream whose normalised key equals the normalised
    name.  Go ranges over the map in an unspecified order; the order of
    [map_to_list] stands for it. *)
Definition GetStream (rd : ReplicationConfig) (name : string)
  : option (string * option ReplicationStreamConfig) :=
  head (filter (λ kv, Normalize kv.1 = Normalize name) (map_to_list (Streams rd))).

Definition GetStream_found (rd : ReplicationConfig) (name : string) : bool :=
  bool_decide (is_Some (GetStream rd name)).

(** One iteration of the loop of [MatchStreams]; [streamCfg.ID] on a
    nil stream is a nil dereference. *)
Definition matchStep (pattern : string) (gc : option (string -> bool))
    (acc : result (gmap string (option ReplicationStreamConfig)))
    (kv : string * option ReplicationStreamConfig)
  : result (gmap string (option ReplicationStreamConfig)) :=
  match acc with
  | Ok streams =>
      let '(streamName, streamCfg) := kv in
      if String.eqb (Normalize streamName) (Normalize pattern)
      then Ok (<[streamName := streamCfg]> streams)
      else match streamCfg with
           | None => Panic
           | Some c =>
               if String.eqb (ID c) pattern
               then Ok (<[streamName := streamCfg]> streams)
               else match gc with
                    | Some g =>
                        if g (strings.ToLower (Normalize streamName))
                        then Ok (<[streamName := streamCfg]> streams)
                        else Ok streams
                    | None => Ok streams
                    end
           end
  | other => other
  end.

Definition MatchStreams (rd : ReplicationConfig) (pattern : string)
  : result (gmap string (option ReplicationStreamConfig)) :=
  let gc := glob_Compile X (strings.ToLower pattern) in
  fold_left (matchStep pattern gc) (map_to_list (Streams rd)) (Ok ∅).

(** *** Defaulting *)

Definition ObjectHasStreamVars (s : ReplicationStreamConfig) : bool :=
  let vars := ["stream_table"; "stream_name"; "stream_file_path"; "stream_file_name"] in
  existsb (λ v, strings.Contains (Object s) ("{" +:+ v +:+ "}")) vars.

(** The table [defaultSet]: for each key, the assignment that copies the
    default [d] into the stream. *)
Definition defaultSet
  : list (string * (ReplicationStreamConfig -> ReplicationStreamConfig -> ReplicationStreamConfig)) :=
  [ ("mode", λ d, set_Mode (Mode d));
    ("object", λ d, set_Object (Object d));
    ("select", λ d, set_Select (Select d));
    ("where", λ d, set_Where (Where d));
    ("primary_key", λ d, set_PrimaryKeyI (PrimaryKeyI d));
    ("update_key", λ d, set_UpdateKey (UpdateKey d));
    ("sql", λ d, set_SQL (SQL d));
    ("schedule", λ d, set_Schedule (Schedule d));
    ("tags", λ d, set_Tags (Tags d));
    ("disabled", λ d, set_Disabled (Disabled d));
    ("single", λ d, set_Single (Some (PtrVal false (Single d))));
    ("transforms", λ d, set_Transforms (Transforms d));
    ("columns", λ d, set_Columns (Columns d));
    ("hooks", λ d, set_Hooks (Hooks d)) ].

Definition applyDefault (streamMap : gset string) (d : ReplicationStreamConfig)
    (stream : ReplicationStreamConfig)
    (entry : string * (ReplicationStreamConfig -> ReplicationStreamConfig -> ReplicationStreamConfig))
  : ReplicationStreamConfig :=
  (if bool_decide (entry.1 ∈ streamMap) then id else entry.2 d) stream.

Definition setDefaultOptions (d stream : ReplicationStreamConfig) : ReplicationStreamConfig :=
  let stream :=
    match SourceOptions_ stream with
    | None => set_SourceOptions (Some (PtrVal zeroSourceOptions (SourceOptions_ d))) stream
    | Some so =>
        match SourceOptions_ d with
        | Some dso => set_SourceOptions (Some (SourceOptions_SetDefaults X so dso)) stream
        | None => stream
        end
    end in
  match TargetOptions_ stream with
  | None => set_TargetOptions (Some (PtrVal zeroTargetOptions (TargetOptions_ d))) stream
  | Some to =>
      match TargetOptions_ d with
      | Some dto => set_TargetOptions (Some (TargetOptions_SetDefaults X to dto)) stream
      | None => stream
      end
  end.

Definition SetStreamDefaults (name : string) (stream : ReplicationStreamConfig)
    (replicationCfg : ReplicationConfig) : ReplicationStreamConfig :=
  let streamMap := default ∅ (maps_Streams replicationCfg !! name) in
  let d := Defaults replicationCfg in
  setDefaultOptions d (fold_left (applyDefault streamMap d) defaultSet stream).

(** *** Stream bookkeeping *)

(** [g.Unmarshal(g.Marshal(cfg), &newCfg)]: a fresh copy, the zero value
    for a nil [cfg]. *)
Definition copyStream (cfg : option ReplicationStreamConfig) : ReplicationStreamConfig :=
  PtrVal zeroStream cfg.

Definition AddStream (key : string) (cfg : option ReplicationStreamConfig)
    (rd : ReplicationConfig) : ReplicationConfig :=
  let rd := with_Streams (<[key := Some (copyStream cfg)]> (Streams rd)) rd in
  let rd := with_streamsOrdered (streamsOrdered rd ++ [key]) rd in
  match maps_Streams rd !! key with
  | Some _ => rd
  | None => with_maps_Streams (<[key := MarshalKeys X cfg]> (maps_Streams rd)) rd
  end.

Definition DeleteStream (key : string) (rd : ReplicationConfig) : ReplicationConfig :=
  let rd := with_Streams (delete key (Streams rd)) rd in
  with_streamsOrdered (filter (λ v, v ≠ key) (streamsOrdered rd)) rd.

(** *** Wildcards *)

Definition hasWildcard (name : string) : bool :=
  strings.Contains name "*" || strings.Contains name "?".

(** The test at the head of the first loop of [ProcessWildcards]: the
    stream's own [single] when set, else the default's. *)
Definition treatedAsSingle (stream : option ReplicationStreamConfig)
    (d : ReplicationStreamConfig) : bool :=
  match stream with
  | Some {| Single := Some b |} => b
  | _ => match Single d with Some b => b | None => false end
  end.

(** The first loop: collect the patterns to expand.  A wildcard whose
    defaulted object has no stream variable gets [stream.Single] set,
    through the pointer held by the map. *)
Fixpoint collectPatterns (names : list string) (rd : ReplicationConfig)
    (patterns : list string) : result (list string) * ReplicationConfig :=
  match names with
  | [] => (Ok patterns, rd)
  | name :: rest =>
      let stream := stream_at rd name in
      if treatedAsSingle stream (Defaults rd) then collectPatterns rest rd patterns
      else if String.eqb name "*" then (Err ErrInvalidWildcard, rd)
      else if hasWildcard name then
        let s := SetStreamDefaults name (PtrVal zeroStream stream) rd in
        if negb (ObjectHasStreamVars s) then
          match stream with
          | None => (Panic, rd)
          | Some st =>
              let topts := PtrVal zeroTargetOptions (TargetOptions_ st) in
              let value := Z.eqb (PtrVal 0%Z (to_FileMaxBytes topts)) 0
                           && Z.eqb (PtrVal 0%Z (to_FileMaxRows topts)) 0 in
              let rd := with_Streams (<[name := Some (set_Single (Some value) st)]> (Streams rd)) rd in
              collectPatterns rest rd patterns
          end
        else collectPatterns rest rd (patterns ++ [name])
      else collectPatterns rest rd patterns
  end.

(** Resolution of the source connection. *)
Inductive ConnLookup :=
| ConnFound (c : Connection)
| ConnError
| ConnMissing.

Definition connsMap : gmap string Connection :=
  fold_left (λ m c, <[strings.ToLower (conn_Name c) := c]> m) (GetLocalConns X) ∅.

Definition lookupSource (source : string) : ConnLookup :=
  match connsMap !! strings.ToLower source with
  | Some c => ConnFound c
  | None =>
      if strings.EqualFold source "local://" || strings.EqualFold source "file://"
      then ConnFound (LocalFileConnEntry X)
      else if strings.Contains source "://"
      then match NewConnectionFromURL X source with
           | Some c => ConnFound c
           | None => ConnError
           end
      else ConnMissing
  end.

Definition tableWildcard (pattern : string) (tables : list Table) : Wildcard :=
  {| Pattern := pattern;
     StreamNames := map tbl_FullName tables;
     NodeMap := ∅;
     TableMap := fold_left (λ m t, <[tbl_FullName t := t]> m) tables ∅ |}.

Definition nodeWildcard (pattern : string) (nodes : list FileNode) : Wildcard :=
  {| Pattern := pattern;
     StreamNames := map node_Path nodes;
     NodeMap := fold_left (λ m n, <[node_Path n := n]> m) nodes ∅;
     TableMap := ∅ |}.

(** The loops of [ProcessWildcardsDatabase] and [ProcessWildcardsFile];
    [calls] records the stream patterns handed to the Discoverer. *)
Fixpoint discoverTables (c : Connection) (source : string) (patterns : list string)
    (wildcards : list Wildcard) (calls : list string)
  : result (list Wildcard) * list string :=
  match patterns with
  | [] => (Ok wildcards, calls)
  | pattern :: rest =>
      match ParseTableNameSchema X pattern (conn_Type c) with
      | None => (Err (ErrParsePattern pattern), calls)
      | Some schema =>
          if String.eqb schema "" then discoverTables c source rest wildcards calls
          else match DiscoverTables X c pattern with
               | DiscoverOk tables =>
                   discoverTables c source rest
                     (wildcards ++ [tableWildcard pattern tables]) (calls ++ [pattern])
               | _ => (Err (ErrDiscovery schema), calls ++ [pattern])
               end
      end
  end.

Definition ProcessWildcardsDatabase (c : Connection) (source : string)
    (patterns : list string) : result (list Wildcard) * list string :=
  if ConnectDatabase X c then discoverTables c source patterns [] []
  else (Err (ErrConnect source), []).

Fixpoint discoverFiles (c : Connection) (source : string) (patterns : list string)
    (wildcards : list Wildcard) (calls : list string)
  : result (list Wildcard) * list string :=
  match patterns with
  | [] => (Ok wildcards, calls)
  | pattern :: rest =>
      let parsed :=
        if strings.Contains pattern "://" then ParseURLTypePath X pattern
        else Some pattern in
      match parsed with
      | None => (Err (ErrParsePattern pattern), calls)
      | Some path =>
          match DiscoverFiles X c path with
          | DiscoverOk nodes =>
              discoverFiles c source rest
                (wildcards ++ [nodeWildcard pattern nodes]) (calls ++ [pattern])
          | _ => (Err (ErrDiscovery pattern), calls ++ [pattern])
          end
      end
  end.

Definition ProcessWildcardsFile (c : Connection) (source : string)
    (patterns : list string) : result (list Wildcard) * list string :=
  if ConnectFile X c then discoverFiles c source patterns [] []
  else (Err (ErrConnect source), []).

Definition zeroTable : Table := {| tbl_FullName := "" |}.
Definition zeroNode : FileNode := {| node_Path := ""; node_URI := "" |}.

(** The loop over [wildcard.StreamNames]: add each discovered stream that
    does not exist yet, and append its name. *)
Fixpoint addDiscovered (kind : ConnKind) (wildcard : Wildcard) (names : list string)
    (rd : ReplicationConfig) (newStreamNames : list string)
  : ReplicationConfig * list string :=
  match names with
  | [] => (rd, newStreamNames)
  | wsn :: rest =>
      match kind with
      | KindDb =>
          let table := PtrVal zeroTable (TableMap wildcard !! wsn) in
          if GetStream_found rd (tbl_FullName table)
          then addDiscovered kind wildcard rest rd newStreamNames
          else
            let cfg := stream_at rd (Pattern wildcard) in
            addDiscovered kind wildcard rest
              (AddStream (tbl_FullName table) cfg rd)
              (newStreamNames ++ [tbl_FullName table])
      | KindFile =>
          let node := PtrVal zeroNode (NodeMap wildcard !! wsn) in
          if GetStream_found rd (node_Path node)
          then addDiscovered kind wildcard rest rd newStreamNames
          else if GetStream_found rd (node_URI node)
          then addDiscovered kind wildcard rest rd newStreamNames
          else
            let cfg := stream_at rd (Pattern wildcard) in
            addDiscovered kind wildcard rest
              (AddStream (node_Path node) cfg rd)
              (newStreamNames ++ [node_Path node])
      | KindOther => addDiscovered kind wildcard rest rd newStreamNames
      end
  end.

(** The loop over [wildcards] for one original name. *)
Fixpoint expandName (kind : ConnKind) (wildcards : list Wildcard) (origName : string)
    (rd : ReplicationConfig) (newStreamNames : list string) (matched : bool)
  : ReplicationConfig * list string * bool :=
  match wildcards with
  | [] => (rd, newStreamNames, matched)
  | wildcard :: rest =>
      if String.eqb (Pattern wildcard) origName then
        let '(rd1, new1) :=
          addDiscovered kind wildcard (StreamNames wildcard) rd newStreamNames in
        expandName kind rest origName (DeleteStream (Pattern wildcard) rd1) new1 true
      else expandName kind rest origName rd newStreamNames matched
  end.

(** The loop over [originalStreamNames]. *)
Fixpoint arrangeStreams (kind : ConnKind) (wildcards : list Wildcard)
    (originalStreamNames : list string) (rd : ReplicationConfig)
    (newStreamNames : list string) : ReplicationConfig * list string :=
  match originalStreamNames with
  | [] => (rd, newStreamNames)
  | origName :: rest =>
      let '(rd1, new1, matched) :=
        expandName kind wildcards origName rd newStreamNames false in
      arrangeStreams kind wildcards rest rd1
        (if matched then new1 else new1 ++ [origName])
  end.

(** [ProcessWildcards]: the outcome, the configuration left behind and
    the patterns handed to the Discoverer. *)
Definition ProcessWildcards (rd : ReplicationConfig)
  : result unit * ReplicationConfig * list string :=
  match collectPatterns (streamsOrdered rd) rd [] with
  | (Ok patterns, rd) =>
      match patterns with
      | [] => (Ok tt, rd, [])
      | _ :: _ =>
          match lookupSource (rc_Source rd) with
          | ConnError => (Err (ErrNewConnection (rc_Source rd)), rd, [])
          | ConnMissing => (Ok tt, rd, [])
          | ConnFound c =>
              let kind := TypeKind X (conn_Type c) in
              let discovered :=
                match kind with
                | KindDb => ProcessWildcardsDatabase c (rc_Source rd) patterns
                | KindFile => ProcessWildcardsFile c (rc_Source rd) patterns
                | KindOther => (Err (ErrInvalidConnection (rc_Source rd)), [])
                end in
              match discovered with
              | (Ok wildcards, calls) =>
                  let '(rd1, newStreamNames) :=
                    arrangeStreams kind wildcards (streamsOrdered rd) rd [] in
                  (Ok tt, with_streamsOrdered newStreamNames rd1, calls)
              | (Err e, calls) => (Err e, rd, calls)
              | (Panic, calls) => (Panic, rd, calls)
              end
          end
      end
  | (Err e, rd) => (Err e, rd, [])
  | (Panic, rd) => (Panic, rd, [])
  end.

(** *** Runtime state *)

Definition fmapString (fMap : gmap string string) (key : string) : string :=
  default "" (fMap !! key).

Definition populateConn (cs : ConnState) (conn : Connection)
    (bucket container : string) : ConnState :=
  {| cs_Name := cs_Name cs;
     cs_Type := conn_Type conn;
     cs_Kind := TypeKindName X (conn_Type conn);
     cs_Bucket := bucket;
     cs_Container := container;
     cs_Database := fmapString (conn_Data conn) "database";
     cs_Instance := fmapString (conn_Data conn) "instance";
     cs_Schema := fmapString (conn_Data conn) "schema" |}.

Definition taskRunID (task : Config) (fMap : gmap string string) : string :=
  let id := fmapString fMap "stream_run_id" in
  if String.eqb id "" then CleanName X (Normalize (StreamName task)) else id.

Definition newRunState (runID : string) (fMap : gmap string string) : RunState :=
  {| run_ID := runID;
     run_Status := ExecStatusCreated;
     run_Stream :=
       {| ss_FileFolder := fmapString fMap "stream_file_folder";
          ss_FileName := fmapString fMap "stream_file_name";
          ss_FileExt := fmapString fMap "stream_file_ext";
          ss_FilePath := fmapString fMap "stream_file_path";
          ss_Name := fmapString fMap "stream_name";
          ss_Schema := fmapString fMap "stream_schema";
          ss_Table := fmapString fMap "stream_table";
          ss_FullName := fmapString fMap "stream_full_name" |};
     run_Object :=
       {| os_Name := fmapString fMap "object_name";
          os_Schema := fmapString fMap "object_schema";
          os_Table := fmapString fMap "object_table";
          os_FullName := fmapString fMap "object_full_name" |} |}.

(** The body of the loop over the tasks. *)
Definition refreshTask (st : RuntimeState) (task : Config)
    (fMap : gmap string string) : RuntimeState :=
  let runID := taskRunID task fMap in
  {| st_Hooks := st_Hooks st;
     st_Env := st_Env st;
     st_Timestamp := st_Timestamp st;
     st_Source := populateConn (st_Source st) (SrcConn task)
                    (fmapString fMap "source_bucket") (fmapString fMap "source_container");
     st_Target := populateConn (st_Target st) (TgtConn task)
                    (fmapString fMap "target_bucket") (fmapString fMap "target_container");
     st_Runs := match st_Runs st !! runID with
                | Some _ => st_Runs st
                | None => <[runID := newRunState runID fMap]> (st_Runs st)
                end |}.

Fixpoint refreshTasks (tasks : list Config) (st : RuntimeState)
  : result unit * RuntimeState :=
  match tasks with
  | [] => (Ok tt, st)
  | task :: rest =>
      match GetFormatMap X task with
      | None => (Err ErrFormatMap, st)
      | Some fMap => refreshTasks rest (refreshTask st task fMap)
      end
  end.

Definition initState (rd : ReplicationConfig) : RuntimeState :=
  {| st_Hooks := ∅; st_Env := rc_Env rd; st_Timestamp := 0%Z;
     st_Source := newConnState (rc_Source rd);
     st_Target := newConnState (rc_Target rd);
     st_Runs := ∅ |}.

Definition touch (now : Z) (st : RuntimeState) : RuntimeState :=
  {| st_Hooks := st_Hooks st; st_Env := st_Env st; st_Timestamp := now;
     st_Source := st_Source st; st_Target := st_Target st; st_Runs := st_Runs st |}.

(** The method [RuntimeState()]; [now] is the clock read by
    [Timestamp.Update()]. *)
Definition rd_RuntimeState (now : Z) (rd : ReplicationConfig)
  : result RuntimeState * ReplicationConfig :=
  let st := touch now (PtrVal (initState rd) (state rd)) in
  if Compiled rd then
    match refreshTasks (Tasks rd) st with
    | (Ok _, st) => (Ok st, with_state (Some st) rd)
    | (Err e, st) => (Err e, with_state (Some st) rd)
    | (Panic, st) => (Panic, with_state (Some st) rd)
    end
  else (Ok st, with_state (Some st) rd).

(** *** The stream-count assertion *)

Definition testStreamCnt (streamCnt : Z) (matchedStreams inputStreams : list string)
  : option Error :=
  let expected := Getenv X "SLING_STREAM_CNT" in
  if String.eqb expected "" then None
  else if strings.HasPrefix expected ">" then
    let atLeast := ToInt X (strings.TrimPrefix expected ">") in
    if (streamCnt <=? atLeast)%Z
    then Some (ErrStreamCntAtLeast atLeast streamCnt (matchedStreams ++ inputStreams))
    else None
  else if negb (streamCnt =? ToInt X expected)%Z
  then Some (ErrStreamCnt (ToInt X expected) streamCnt (matchedStreams ++ inputStreams))
  else None.

(** *** Compilation *)

(** The branch of [Compile] for a compiled configuration. *)
Definition reselect (selectStreams : list string) (rd : ReplicationConfig)
  : ReplicationConfig :=
  match selectStreams with
  | [] => rd
  | _ :: _ =>
      with_Tasks (filter (λ task, StreamName task ∈ selectStreams) (Tasks rd)) rd
  end.

(** [matchedStreams] is a map keyed by normalised stream name whose
    values are never read: it is kept as the set of its keys. *)
Definition addMatched (matchedStreams : gset string)
    (streams : gmap string (option ReplicationStreamConfig)) : gset string :=
  list_to_set (Normalize <$> (map_to_list streams).*1) ∪ matchedStreams.

Fixpoint selectTokens (rd : ReplicationConfig) (selectStreams : list string)
    (matchedStreams : gset string) (includeTags excludeTags : list string)
  : result (gset string * list string * list string) :=
  match selectStreams with
  | [] => Ok (matchedStreams, includeTags, excludeTags)
  | selectStream :: rest =>
      match MatchStreams rd selectStream with
      | Ok streams =>
          selectTokens rd rest (addMatched matchedStreams streams)
            (if strings.HasPrefix selectStream "tag:"
             then includeTags ++ [strings.TrimPrefix selectStream "tag:"]
             else includeTags)
            (if strings.HasPrefix selectStream "-tag:"
             then excludeTags ++ [strings.TrimPrefix selectStream "-tag:"]
             else excludeTags)
      | Err e => Err e
      | Panic => Panic
      end
  end.

Definition orElse {A} (new old : option A) : option A :=
  match new with Some _ => new | None => old end.

(** The overrides taken from [cfgOverwrite].  [cfgOverwrite.Source.Options]
    and [stream.SourceOptions] are dereferenced. *)
Definition applyOverwrite (cfgOverwrite : option Config)
    (stream : ReplicationStreamConfig) (taskEnv : gmap string string)
  : result (ReplicationStreamConfig * string * gmap string string) :=
  match cfgOverwrite with
  | None => Ok (stream, "", taskEnv)
  | Some o =>
      let stream :=
        if negb (String.eqb (cfg_Mode o) "") then set_Mode (cfg_Mode o) stream
        else stream in
      match src_Options (cfg_Source o), SourceOptions_ stream with
      | Some oo, Some so =>
          let so :=
            {| so_Limit := orElse (so_Limit oo) (so_Limit so);
               so_Offset := orElse (so_Offset oo) (so_Offset so);
               so_Range := orElse (so_Range oo) (so_Range so);
               so_FileSelect := orElse (so_FileSelect oo) (so_FileSelect so);
               so_Columns := so_Columns so;
               so_Other := so_Other so |} in
          let stream := set_SourceOptions (Some so) stream in
          let stream :=
            if negb (String.eqb (src_UpdateKey (cfg_Source o)) "")
            then set_UpdateKey (src_UpdateKey (cfg_Source o)) stream else stream in
          let stream :=
            if negb (any_is_nil (src_PrimaryKeyI (cfg_Source o)))
            then set_PrimaryKeyI (src_PrimaryKeyI (cfg_Source o)) stream else stream in
          Ok (stream, IncrementalValStr o, cfg_Env o ∪ taskEnv)
      | _, _ => Panic
      end
  end.

Definition singleTargetOptions (stream : ReplicationStreamConfig)
    (opts : option TargetOptions) : option TargetOptions :=
  match Single stream with
  | Some true =>
      Some {| to_FileMaxBytes := Some 0%Z; to_FileMaxRows := Some 0%Z;
              to_Other := to_Other (PtrVal zeroTargetOptions opts) |}
  | _ => opts
  end.

(** The task record assembled for one stream, before [Prepare]. *)
Definition makeTask (rd : ReplicationConfig) (name : string)
    (stream : ReplicationStreamConfig) (taskEnv : gmap string string)
    (incrementalValStr : string) : Config :=
  {| cfg_Source :=
       {| src_Conn := rc_Source rd; src_Stream := name; src_Query := SQL stream;
          src_Select := Select stream; src_Where := Where stream;
          src_PrimaryKeyI := AList (castKeyArray X (PrimaryKeyI stream));
          src_UpdateKey := UpdateKey stream;
          src_Options := SourceOptions_ stream |};
     cfg_Target :=
       {| tgt_Conn := rc_Target rd; tgt_Object := Object stream;
          tgt_Columns := Columns stream;
          tgt_Options := singleTargetOptions stream (TargetOptions_ stream) |};
     cfg_Mode := Mode stream;
     cfg_Transforms := Transforms stream;
     cfg_Env := taskEnv;
     StreamName := name;
     IncrementalValStr := incrementalValStr;
     ReplicationStream := Some stream;
     SrcConn := zeroConnection;
     TgtConn := zeroConnection |}.

Definition hasTag (stream : ReplicationStreamConfig) (tags : list string) : bool :=
  existsb (λ tag, bool_decide (tag ∈ Tags stream)) tags.

(** The loop of [Compile] over [rd.StreamsOrdered()]. *)
Fixpoint compileStreams (cfgOverwrite : option Config) (selecting : bool)
    (includeTags excludeTags : list string) (names : list string)
    (rd : ReplicationConfig) (matchedStreams : gset string)
  : result (gset string) * ReplicationConfig :=
  match names with
  | [] => (Ok matchedStreams, rd)
  | name :: rest =>
      let stream := SetStreamDefaults name (PtrVal zeroStream (stream_at rd name)) rd in
      if String.eqb (Object stream) "" then (Err (ErrMissingTarget name), rd)
      else
        let matchedStreams :=
          if hasTag stream includeTags
          then {[Normalize name]} ∪ matchedStreams else matchedStreams in
        let matchedStreams :=
          if hasTag stream excludeTags
          then matchedStreams ∖ {[Normalize name]} else matchedStreams in
        if selecting && negb (bool_decide (Normalize name ∈ matchedStreams))
        then compileStreams cfgOverwrite selecting includeTags excludeTags rest rd matchedStreams
        else
          match applyOverwrite cfgOverwrite stream (rc_Env rd) with
          | Ok (stream, incrementalValStr, taskEnv) =>
              match Prepare X (makeTask rd name stream taskEnv incrementalValStr) with
              | Some cfg =>
                  compileStreams cfgOverwrite selecting includeTags excludeTags rest
                    (with_Tasks (Tasks rd ++ [cfg]) rd) matchedStreams
              | None => (Err (ErrPrepare name), rd)
              end
          | Err e => (Err e, rd)
          | Panic => (Panic, rd)
          end
  end.

Definition nonEmpty {A} (l : list A) : bool :=
  match l with [] => false | _ :: _ => true end.

(** [Compile]: the outcome, the configuration left behind and the
    patterns handed to the Discoverer during the call. *)
Definition Compile (now : Z) (cfgOverwrite : option Config)
    (selectStreams : list string) (rd : ReplicationConfig)
  : result unit * ReplicationConfig * list string :=
  if Compiled rd then (Ok tt, reselect selectStreams rd, [])
  else
    match ProcessWildcards rd with
    | (Ok _, rd, calls) =>
        match selectTokens rd selectStreams ∅ [] [] with
        | Ok (matchedStreams, includeTags, excludeTags) =>
            if nonEmpty includeTags && nonEmpty excludeTags
            then (Err ErrConflictingTags, rd, calls)
            else
              match compileStreams cfgOverwrite (nonEmpty selectStreams)
                      includeTags excludeTags (streamsOrdered rd) rd matchedStreams with
              | (Ok matchedStreams, rd) =>
                  let rd := with_Compiled true rd in
                  match rd_RuntimeState now rd with
                  | (Ok _, rd) =>
                      let streamCnt :=
                        if nonEmpty selectStreams
                        then Z.of_nat (size matchedStreams)
                        else Z.of_nat (size (Streams rd)) in
                      match testStreamCnt streamCnt (elements matchedStreams)
                              (elements (dom (Streams rd))) with
                      | Some e => (Err e, rd, calls)
                      | None => (Ok tt, rd, calls)
                      end
                  | (Err e, rd) => (Err (ErrRuntimeState e), rd, calls)
                  | (Panic, rd) => (Panic, rd, calls)
                  end
              | (Err e, rd) => (Err e, rd, calls)
              | (Panic, rd) => (Panic, rd, calls)
              end
        | Err e => (Err e, rd, calls)
        | Panic => (Panic, rd, calls)
        end
    | (Err e, rd, calls) => (Err (ErrWildcards e), rd, calls)
    | (Panic, rd, calls) => (Panic, rd, calls)
    end.

End Planner.

(** ** Parsing

    [UnmarshalReplication] from the second YAML pass on: [rootMap] is the
    document after the substitution of the environment, as the ordered
    mapping [yaml.MapSlice]; the unordered view [m] is read off it, a
    later duplicate key replacing an earlier one. *)

Section Parser.

Context (X : Externals).

Definition yaml_get (key : string) (entries : list (string * YamlNode))
  : option YamlNode :=
  (list_to_map (reverse entries) : gmap string YamlNode) !! key.

Definition yaml_string (v : YamlNode) : string :=
  match v with YScalar s => s | _ => "" end.

(** [makeColumns]: the entries under [columns], in document order; the
    nil slice is the empty list. *)
Fixpoint makeColumns (nodes : list (string * YamlNode)) : list (string * string) :=
  match nodes with
  | [] => []
  | (key, value) :: rest =>
      (if String.eqb key "columns" then
         match value with
         | YMap slice => map (λ kv, (kv.1, yaml_string kv.2)) slice
         | _ => []
         end
       else []) ++ makeColumns rest
  end.

(** The typed decoding of [streams]: a null value is the nil pointer. *)
Fixpoint decodeStreams (entries : list (string * YamlNode))
    (acc : gmap string (option ReplicationStreamConfig))
  : option (gmap string (option ReplicationStreamConfig)) :=
  match entries with
  | [] => Some acc
  | (key, YNull) :: rest => decodeStreams rest (<[key := None]> acc)
  | (key, value) :: rest =>
      match DecodeStream X value with
      | Some cfg => decodeStreams rest (<[key := Some cfg]> acc)
      | None => None
      end
  end.

(** The raw maps [maps.Streams], as key sets. *)
Definition rawKeys (value : YamlNode) : gset string :=
  match value with
  | YMap entries => list_to_set entries.*1
  | _ => ∅
  end.

Definition rawStreamMaps (entries : list (string * YamlNode)) : gmap string (gset string) :=
  fold_left (λ m kv, <[kv.1 := rawKeys kv.2]> m) entries ∅.

(** The legacy [columns] under [source_options] of one stream node;
    [stream.SourceOptions] is read through the stream pointer. *)
Fixpoint streamSourceColumns (nodes : list (string * YamlNode))
    (found : bool) (stream : option ReplicationStreamConfig)
  : result (option ReplicationStreamConfig) :=
  match nodes with
  | [] => Ok stream
  | (key, value) :: rest =>
      if String.eqb key "source_options" && found then
        match stream with
        | None => Panic
        | Some st =>
            match value with
            | YMap slice =>
                match makeColumns slice with
                | [] => streamSourceColumns rest found stream
                | cols =>
                    match SourceOptions_ st with
                    | Some so =>
                        let so :=
                          {| so_Limit := so_Limit so; so_Offset := so_Offset so;
                             so_Range := so_Range so; so_FileSelect := so_FileSelect so;
                             so_Columns := AColumns cols; so_Other := so_Other so |} in
                        streamSourceColumns rest found
                          (Some (set_SourceOptions (Some so) st))
                    | None => Panic
                    end
                end
            | _ => streamSourceColumns rest found stream
            end
        end
      else streamSourceColumns rest found stream
  end.

(** The loop over the nodes of [streams]: record the order, and set the
    ordered columns. *)
Fixpoint orderStreams (streamsNodes : list (string * YamlNode))
    (config : ReplicationConfig) : result ReplicationConfig :=
  match streamsNodes with
  | [] => Ok config
  | (key, value) :: rest =>
      let found := bool_decide (is_Some (Streams config !! key)) in
      let stream := stream_at config key in
      let config := with_streamsOrdered (streamsOrdered config ++ [key]) config in
      match value with
      | YNull => orderStreams rest config
      | YScalar _ => Panic
      | YMap slice =>
          let withColumns :=
            match makeColumns slice with
            | [] => Ok stream
            | cols =>
                match stream with
                | Some st => Ok (Some (set_Columns (AColumns cols) st))
                | None => Panic
                end
            end in
          match withColumns with
          | Ok stream =>
              match streamSourceColumns slice found stream with
              | Ok stream =>
                  let config :=
                    if found then with_Streams (<[key := stream]> (Streams config)) config
                    else config in
                  orderStreams rest config
              | Err e => Err e
              | Panic => Panic
              end
          | Err e => Err e
          | Panic => Panic
          end
      end
  end.

Fixpoint orderRoot (rootMap : list (string * YamlNode)) (config : ReplicationConfig)
  : result ReplicationConfig :=
  match rootMap with
  | [] => Ok config
  | (key, value) :: rest =>
      if String.eqb key "streams" then
        match value with
        | YMap streamsNodes =>
            match orderStreams streamsNodes config with
            | Ok config => orderRoot rest config
            | other => other
            end
        | _ => orderRoot rest config
        end
      else orderRoot rest config
  end.

(** The ordered columns of [defaults], top-level and legacy. *)
Fixpoint defaultsSourceColumns (nodes : list (string * YamlNode))
    (d : ReplicationStreamConfig) : result ReplicationStreamConfig :=
  match nodes with
  | [] => Ok d
  | (key, value) :: rest =>
      if String.eqb key "source_options" then
        match value with
        | YMap slice =>
            match makeColumns slice with
            | [] => defaultsSourceColumns rest d
            | cols =>
                match SourceOptions_ d with
                | Some so =>
                    let so :=
                      {| so_Limit := so_Limit so; so_Offset := so_Offset so;
                         so_Range := so_Range so; so_FileSelect := so_FileSelect so;
                         so_Columns := AColumns cols; so_Other := so_Other so |} in
                    defaultsSourceColumns rest (set_SourceOptions (Some so) d)
                | None => Panic
                end
            end
        | _ => defaultsSourceColumns rest d
        end
      else defaultsSourceColumns rest d
  end.

Fixpoint orderDefaults (rootMap : list (string * YamlNode))
    (d : ReplicationStreamConfig) : result ReplicationStreamConfig :=
  match rootMap with
  | [] => Ok d
  | (key, value) :: rest =>
      if String.eqb key "defaults" then
        match value with
        | YMap slice =>
            let d := match makeColumns slice with
                     | [] => d
                     | cols => set_Columns (AColumns cols) d
                     end in
            match defaultsSourceColumns slice d with
            | Ok d => orderDefaults rest d
            | other => other
            end
        | _ => Panic
        end
      else orderDefaults rest d
  end.

Definition UnmarshalReplication (rootMap : list (string * YamlNode))
  : result ReplicationConfig :=
  match yaml_get "source" rootMap with
  | None => Err (ErrMissingKey "source")
  | Some source =>
  match yaml_get "target" rootMap with
  | None => Err (ErrMissingKey "target")
  | Some target =>
  let defaults := default (YMap []) (yaml_get "defaults" rootMap) in
  let hooks := default (YMap []) (yaml_get "hooks" rootMap) in
  match yaml_get "streams" rootMap with
  | None => Err (ErrMissingKey "streams")
  | Some streams =>
  let streamEntries := match streams with YMap entries => entries | _ => [] end in
  match DecodeStream X defaults with
  | None => Err (ErrParse "defaults")
  | Some d =>
  match decodeStreams streamEntries ∅ with
  | None => Err (ErrParse "streams")
  | Some strs =>
  match DecodeHooks X hooks with
  | None => Err (ErrParse "hooks")
  | Some h =>
  match orderDefaults rootMap d with
  | Ok d =>
      orderRoot rootMap
        {| rc_Source := yaml_string source; rc_Target := yaml_string target;
           rc_Hooks := h; Defaults := d; Streams := strs;
           rc_Env := ∅; Tasks := []; Compiled := false; streamsOrdered := [];
           maps_Streams := rawStreamMaps streamEntries; state := None |}
  | Err e => Err e
  | Panic => Panic
  end end end end end end end.

End Parser.

(** ** A concrete world

    Collaborators simple enough to run the planner on examples: two
    registered connections, a Discoverer that answers from a table, a
    preparer that accepts every task, a glob matcher for [*] and [?], and
    a decimal [ToInt]. *)

Module Demo.

Fixpoint glob_match (pattern s : string) : bool :=
  match pattern with
  | EmptyString => match s with EmptyString => true | _ => false end
  | String p pattern' =>
      if Ascii.eqb p "*"%char then
        (fix star (s : string) : bool :=
           glob_match pattern' s ||
           match s with
           | EmptyString => false
           | String _ s' => star s'
           end) s
      else
        match s with
        | EmptyString => false
        | String c s' =>
            (Ascii.eqb p "?"%char || Ascii.eqb p c) && glob_match pattern' s'
        end
  end.

Fixpoint parse_digits (s : string) (acc : Z) : option Z :=
  match s with
  | EmptyString => Some acc
  | String c s' =>
      let n := nat_of_ascii c in
      if (48 <=? n)%nat && (n <=? 57)%nat
      then parse_digits s' (10 * acc + Z.of_nat (n - 48))%Z
      else None
  end.

Definition toInt (s : string) : Z :=
  match s with
  | EmptyString => 0%Z
  | _ => default 0%Z (parse_digits s 0%Z)
  end.

Fixpoint before_dot (s : string) : option string :=
  match s with
  | EmptyString => None
  | String c s' =>
      if Ascii.eqb c "."%char then Some EmptyString
      else String c <$> before_dot s'
  end.

Definition schemaOf (pattern : string) : string := default "" (before_dot pattern).

Definition kindOf (type : string) : ConnKind :=
  if String.eqb type "postgres" then KindDb
  else if String.eqb type "s3" then KindFile
  else KindOther.

Definition kindName (type : string) : string :=
  match kindOf type with
  | KindDb => "database"
  | KindFile => "file"
  | KindOther => ""
  end.

Definition conn (name type : string) : Connection :=
  {| conn_Name := name; conn_Type := type; conn_Data := ∅ |}.

Definition marshalKeys (cfg : option ReplicationStreamConfig) : gset string :=
  match cfg with
  | None => ∅
  | Some s =>
      (if String.eqb (Mode s) "" then ∅ else {["mode"]}) ∪
      (if String.eqb (Object s) "" then ∅ else {["object"]}) ∪
      (if String.eqb (Where s) "" then ∅ else {["where"]}) ∪
      (if String.eqb (UpdateKey s) "" then ∅ else {["update_key"]}) ∪
      (if String.eqb (SQL s) "" then ∅ else {["sql"]}) ∪
      (if String.eqb (Schedule s) "" then ∅ else {["schedule"]}) ∪
      (match Select s with [] => ∅ | _ => {["select"]} end) ∪
      (match Tags s with [] => ∅ | _ => {["tags"]} end) ∪
      (if Disabled s then {["disabled"]} else ∅) ∪
      (match Single s with None => ∅ | Some _ => {["single"]} end)
  end.

Definition mergeSource (so d : SourceOptions) : SourceOptions :=
  {| so_Limit := orElse (so_Limit so) (so_Limit d);
     so_Offset := orElse (so_Offset so) (so_Offset d);
     so_Range := orElse (so_Range so) (so_Range d);
     so_FileSelect := orElse (so_FileSelect so) (so_FileSelect d);
     so_Columns := so_Columns so; so_Other := so_Other so |}.

Definition mergeTarget (to d : TargetOptions) : TargetOptions :=
  {| to_FileMaxBytes := orElse (to_FileMaxBytes to) (to_FileMaxBytes d);
     to_FileMaxRows := orElse (to_FileMaxRows to) (to_FileMaxRows d);
     to_Other := to_Other to |}.

(** The world with [SLING_STREAM_CNT] set to [cnt] (empty: unset) and a
    Discoverer that returns [tables] for every pattern. *)
Definition world (cnt : string) (tables : list string) : Externals :=
  {| GetLocalConns := [conn "PG" "postgres"; conn "S3" "s3"];
     LocalFileConnEntry := conn "local" "file";
     NewConnectionFromURL := λ _, None;
     TypeKind := kindOf;
     TypeKindName := kindName;
     ConnectDatabase := λ _, true;
     ConnectFile := λ _, true;
     ParseTableNameSchema := λ pattern _, Some (schemaOf pattern);
     ParseURLTypePath := λ pattern, Some pattern;
     DiscoverTables := λ _ _, DiscoverOk (map Build_Table tables);
     DiscoverFiles := λ _ _, DiscoverOk (map (λ p, Build_FileNode p p) tables);
     Prepare := λ cfg, Some cfg;
     GetFormatMap := λ cfg, Some {["stream_name" := StreamName cfg]};
     CleanName := λ n, n;
     castKeyArray := λ a, match a with AStr s => [s] | AList l => l | _ => [] end;
     MarshalKeys := marshalKeys;
     DecodeStream := λ _, Some zeroStream;
     DecodeHooks := λ _, Some emptyHooks;
     SourceOptions_SetDefaults := mergeSource;
     TargetOptions_SetDefaults := mergeTarget;
     glob_Compile := λ pattern, Some (glob_match pattern);
     ToInt := toInt;
     Getenv := λ name, if String.eqb name "SLING_STREAM_CNT" then cnt else "" |}.

(** A configuration from its defaults and its streams in document
    order, each with its YAML value and the keys written under it. *)
Definition config (source target : string) (defaults : ReplicationStreamConfig)
    (streams : list (string * option ReplicationStreamConfig * list string))
  : ReplicationConfig :=
  {| rc_Source := source; rc_Target := target; rc_Hooks := emptyHooks;
     Defaults := defaults;
     Streams := list_to_map (map (λ e, (e.1.1, e.1.2)) streams);
     rc_Env := ∅; Tasks := []; Compiled := false;
     streamsOrdered := map (λ e, e.1.1) streams;
     maps_Streams := list_to_map (map (λ e, (e.1.1, list_to_set e.2)) streams);
     state := None |}.

Definition withObject (object : string) : ReplicationStreamConfig :=
  set_Object object zeroStream.

Definition taskNames (out : result unit * ReplicationConfig * list string) : list string :=
  map StreamName (Tasks out.1.2).

End Demo.

(** ** Notions used by the properties *)

(** The fields that [SetStreamDefaults] may fill from the defaults. *)
Inductive Field :=
| FMode | FObject | FSelect | FWhere | FPrimaryKey | FUpdateKey | FSQL
| FSchedule | FTags | FDisabled | FSingle | FTransforms | FColumns | FHooks.

Inductive FieldValue :=
| VString (s : string)
| VStrings (l : list string)
| VAny (a : AnyVal)
| VBool (b : bool)
| VPtrBool (p : option bool)
| VHooks (h : HookMap).

Definition fieldKey (f : Field) : string :=
  match f with
  | FMode => "mode" | FObject => "object" | FSelect => "select"
  | FWhere => "where" | FPrimaryKey => "primary_key"
  | FUpdateKey => "update_key" | FSQL => "sql" | FSchedule => "schedule"
  | FTags => "tags" | FDisabled => "disabled" | FSingle => "single"
  | FTransforms => "transforms" | FColumns => "columns" | FHooks => "hooks"
  end.

Definition fieldOf (f : Field) (s : ReplicationStreamConfig) : FieldValue :=
  match f with
  | FMode => VString (Mode s) | FObject => VString (Object s)
  | FSelect => VStrings (Select s) | FWhere => VString (Where s)
  | FPrimaryKey => VAny (PrimaryKeyI s) | FUpdateKey => VString (UpdateKey s)
  | FSQL => VString (SQL s) | FSchedule => VString (Schedule s)
  | FTags => VStrings (Tags s) | FDisabled => VBool (Disabled s)
  | FSingle => VPtrBool (Single s) | FTransforms => VAny (Transforms s)
  | FColumns => VAny (Columns s) | FHooks => VHooks (Hooks s)
  end.

(** What an absent key receives: the default's value, and for [single]
    a pointer to the default's boolean (false when the default is unset). *)
Definition inheritedValue (f : Field) (d : ReplicationStreamConfig) : FieldValue :=
  match f with
  | FSingle => VPtrBool (Some (PtrVal false (Single d)))
  | _ => fieldOf f d
  end.

(** The raw map consulted for a stream. *)
Definition presenceOf (rd : ReplicationConfig) (name : string) : gset string :=
  default ∅ (maps_Streams rd !! name).

(** The ordered list holds exactly the keys of the stream map, once each. *)
Definition consistent (rd : ReplicationConfig) : Prop :=
  NoDup (streamsOrdered rd) ∧
  ∀ key, key ∈ streamsOrdered rd ↔ key ∈ dom (Streams rd).

(** [x] occurs before [y] in [l]. *)
Definition precedes (x y : string) (l : list string) : Prop :=
  ∃ l1 l2 l3, l = l1 ++ x :: l2 ++ y :: l3.

(** The defaulted copy of the stream [name], as both [ProcessWildcards]
    and [Compile] build it. *)
Definition defaulted (X : Externals) (rd : ReplicationConfig) (name : string)
  : ReplicationStreamConfig :=
  SetStreamDefaults X name (PtrVal zeroStream (stream_at rd name)) rd.

(** The names the Discoverer returns for a pattern of the source
    [source], in the order it returns them. *)
Definition discoveredNames (X : Externals) (source pattern : string)
  : option (list string) :=
  match lookupSource X source with
  | ConnFound c =>
      match TypeKind X (conn_Type c) with
      | KindDb =>
          match DiscoverTables X c pattern with
          | DiscoverOk tables => Some (map tbl_FullName tables)
          | _ => None
          end
      | KindFile =>
          let parsed :=
            if strings.Contains pattern "://" then ParseURLTypePath X pattern
            else Some pattern in
          match parsed with
          | Some path =>
              match DiscoverFiles X c path with
              | DiscoverOk nodes => Some (map node_Path nodes)
              | _ => None
              end
          | None => None
          end
      | KindOther => None
      end
  | _ => None
  end.


(** The stream names a stream-count error lists. *)
Definition listedNames (e : Error) : option (list string) :=
  match e with
  | ErrStreamCntAtLeast _ _ names => Some names
  | ErrStreamCnt _ _ names => Some names
  | _ => None
  end.

(** The tasks of a configuration that carry a given stream name. *)
Definition tasksNamed (name : string) (rd : ReplicationConfig) : list Config :=
  filter (λ task, StreamName task = name) (Tasks rd).

(** ** Example configurations *)

Module Examples.

Import Demo.

(** Two plain streams, each with its own object. *)
Definition twoStreams : ReplicationConfig :=
  config "PG" "SNOW" zeroStream
    [("a", Some (withObject "ta"), ["object"]);
     ("b", Some (withObject "tb"), ["object"])].

(** A stream that inherits everything, under defaults without [single]. *)
Definition inheriting : ReplicationConfig :=
  config "PG" "SNOW" (withObject "t") [("a", Some zeroStream, [])].

(** [mode: ""] written in the YAML, under a default mode. *)
Definition blankMode : ReplicationConfig :=
  config "PG" "SNOW" (set_Mode "full-refresh" (withObject "t"))
    [("a", Some zeroStream, ["mode"])].

(** The bare wildcard with a fixed object. *)
Definition bareStar : ReplicationConfig :=
  config "PG" "SNOW" zeroStream [("*", Some (withObject "tbl"), ["object"])].

(** A wildcard with a fixed object, between two plain streams. *)
Definition fixedObject : ReplicationConfig :=
  config "PG" "SNOW" zeroStream
    [("x", Some (withObject "tx"), ["object"]);
     ("public.*", Some (withObject "tbl"), ["object"]);
     ("y", Some (withObject "ty"), ["object"])].

(** A null wildcard stream under a default object without placeholders. *)
Definition nullWildcard : ReplicationConfig :=
  config "PG" "SNOW" (withObject "tbl") [("public.*", None, [])].

(** A null plain stream next to a configured one. *)
Definition nullStream : ReplicationConfig :=
  config "PG" "SNOW" (withObject "tbl")
    [("a", None, []); ("b", Some zeroStream, [])].

(** A stream without any object, next to a complete one. *)
Definition missingObject : ReplicationConfig :=
  config "PG" "SNOW" zeroStream
    [("a", Some (withObject "ta"), ["object"]); ("b", Some zeroStream, [])].


(** A wildcard to expand, between two plain streams. *)
Definition expanding : ReplicationConfig :=
  config "PG" "SNOW" (withObject "{stream_table}")
    [("x", Some (withObject "tx"), ["object"]);
     ("public.*", None, []);
     ("y", Some (withObject "ty"), ["object"])].

(** A prepared task of the source database [database]. *)
Definition taskOn (name database : string) : Config :=
  {| cfg_Source :=
       {| src_Conn := "PG"; src_Stream := name; src_Query := ""; src_Select := [];
          src_Where := ""; src_PrimaryKeyI := ANil; src_UpdateKey := "";
          src_Options := None |};
     cfg_Target :=
       {| tgt_Conn := "SNOW"; tgt_Object := "t"; tgt_Columns := ANil;
          tgt_Options := None |};
     cfg_Mode := ""; cfg_Transforms := ANil; cfg_Env := ∅; StreamName := name;
     IncrementalValStr := ""; ReplicationStream := None;
     SrcConn := {| conn_Name := "PG"; conn_Type := "postgres";
                   conn_Data := {["database" := database]} |};
     TgtConn := conn "SNOW" "snowflake" |}.

(** A compiled configuration holding the given tasks. *)
Definition compiledWith (tasks : list Config) : ReplicationConfig :=
  with_Compiled true (with_Tasks tasks twoStreams).

(** The document of [twoStreams]. *)
Definition twoStreamsYaml : list (string * YamlNode) :=
  [("source", YScalar "PG"); ("target", YScalar "SNOW");
   ("streams", YMap [("a", YMap [("object", YScalar "ta")]);
                     ("b", YNull)])].

End Examples.

(** ** Notions used in the proofs *)

Section ProofNotions.

Context (X : Externals).

(** What one entry of [defaultSet] does to the field [f]. *)
Definition entryActsOn (f : Field)
    (entry : string * (ReplicationStreamConfig -> ReplicationStreamConfig -> ReplicationStreamConfig))
  : Prop :=
  (entry.1 = fieldKey f → ∀ d s, fieldOf f (entry.2 d s) = inheritedValue f d) ∧
  (entry.1 ≠ fieldKey f → ∀ d s, fieldOf f (entry.2 d s) = fieldOf f s).

(** What the first loop leaves untouched. *)
Definition sameShape (rd rd' : ReplicationConfig) : Prop :=
  dom (Streams rd') = dom (Streams rd) ∧
  streamsOrdered rd' = streamsOrdered rd ∧
  Defaults rd' = Defaults rd ∧ maps_Streams rd' = maps_Streams rd ∧
  Tasks rd' = Tasks rd ∧ Compiled rd' = Compiled rd ∧ state rd' = state rd ∧
  rc_Source rd' = rc_Source rd ∧
  ∀ k, Object (defaulted X rd' k) = Object (defaulted X rd k).

(** A wildcard record maps each of its stream names to the table or the
    node of that name. *)
Definition wellKeyed (kind : ConnKind) (w : Wildcard) : Prop :=
  ∀ wsn, wsn ∈ StreamNames w →
    match kind with
    | KindDb => tbl_FullName (PtrVal zeroTable (TableMap w !! wsn)) = wsn
    | KindFile => node_Path (PtrVal zeroNode (NodeMap w !! wsn)) = wsn
    | KindOther => True
    end.

(** What the expansion of wildcards leaves untouched. *)
Definition sameRest (rd rd' : ReplicationConfig) : Prop :=
  Defaults rd' = Defaults rd ∧ Tasks rd' = Tasks rd ∧
  Compiled rd' = Compiled rd ∧ state rd' = state rd ∧
  rc_Source rd' = rc_Source rd.

(** What one record adds: names of the record, in its order, each new
    to the map and added once. *)
Definition addedBy (rd : ReplicationConfig) (names added : list string)
    (rd1 : ReplicationConfig) : Prop :=
  added `sublist_of` names ∧ NoDup added ∧
  (∀ a, a ∈ added → a ∉ dom (Streams rd)) ∧
  (∀ k, k ∈ dom (Streams rd1) ↔ k ∈ dom (Streams rd) ∨ k ∈ added) ∧
  sameRest rd rd1.

(** What an original name becomes: itself when no record bears it,
    otherwise names of its record, in the record's order. *)
Definition segmentOf (ws : list Wildcard) (o : string) (seg : list string) : Prop :=
  ((o ∉ map Pattern ws) ∧ seg = [o]) ∨
  (∃ w, w ∈ ws ∧ Pattern w = o ∧ seg `sublist_of` StreamNames w).

(** What an original name becomes in the new order: itself when the
    Discoverer was not called for it, otherwise names the Discoverer
    returned for it, in the order it returned them. *)
Definition expandsTo (rd : ReplicationConfig) (calls : list string)
    (name : string) (seg : list string) : Prop :=
  ((name ∉ calls) ∧ seg = [name]) ∨
  (name ∈ calls ∧
   ∃ names, discoveredNames X (rc_Source rd) name = Some names ∧
            seg `sublist_of` names).

(** The patterns handed to the Discoverer are stream keys that contain
    a wildcard, are not the bare star, and whose defaulted object holds
    a stream variable. *)
Definition expandable (rd : ReplicationConfig) (p : string) : Prop :=
  p ∈ streamsOrdered rd ∧ hasWildcard p = true ∧ p ≠ "*" ∧
  ObjectHasStreamVars (defaulted X rd p) = true.

(** What [ProcessWildcards] guarantees, whatever its outcome. *)
Definition processed (rd : ReplicationConfig) (r : result unit)
    (rd' : ReplicationConfig) (calls : list string) : Prop :=
  consistent rd' ∧ sameRest rd rd' ∧
  (∀ p, p ∈ calls → expandable rd p) ∧
  (r = Ok tt →
   ∃ segs, streamsOrdered rd' = concat segs ∧
           Forall2 (expandsTo rd calls) (streamsOrdered rd) segs).

(** The stream keys of the document, in document order. *)
Definition streamsKeys (rootMap : list (string * YamlNode)) : list string :=
  flat_map (λ kv, if String.eqb kv.1 "streams"
                  then match kv.2 with YMap nodes => nodes.*1 | _ => [] end
                  else []) rootMap.

(** The entries under the [streams] key that the unordered view sees. *)
Definition streamEntriesOf (rootMap : list (string * YamlNode))
  : list (string * YamlNode) :=
  match yaml_get "streams" rootMap with
  | Some (YMap entries) => entries
  | _ => []
  end.

End ProofNotions.

(** * Properties *)

(** ** Strings and normalisation *)




Lemma String_eqb_decide (s t : string) : String.eqb s t = bool_decide (s = t).
Proof.
  destruct (String.eqb_spec s t);
    [by rewrite bool_decide_eq_true_2 | by rewrite bool_decide_eq_false_2].
Qed.

(** ** Defaulting (C3) *)

Section Defaulting.

Context (X : Externals).


Lemma defaultSet_acts (f : Field) : Forall (entryActsOn f) defaultSet.
Proof.
  unfold defaultSet.
  repeat (apply Forall_cons_2); try apply Forall_nil_2.
  all: split; intros He d s; cbn [fst snd] in *.
  all: destruct f; cbn [fieldKey] in He; try discriminate He; try reflexivity.
  all: exfalso; by apply He.
Qed.

Lemma defaultSet_keys_NoDup : NoDup defaultSet.*1.
Proof. cbn. apply (bool_decide_unpack _). by vm_compute. Qed.

Lemma fieldKey_in_defaultSet (f : Field) : fieldKey f ∈ defaultSet.*1.
Proof.
  destruct f; cbn;
    repeat (first [apply list_elem_of_here | apply list_elem_of_further]).
Qed.

Lemma fold_applyDefault (f : Field) (streamMap : gset string)
    (d : ReplicationStreamConfig) entries :
  Forall (entryActsOn f) entries →
  NoDup entries.*1 →
  ∀ s,
    fieldOf f (fold_left (applyDefault streamMap d) entries s) =
    if bool_decide (fieldKey f ∈ entries.*1) then
      if bool_decide (fieldKey f ∈ streamMap) then fieldOf f s
      else inheritedValue f d
    else fieldOf f s.
Proof.
  induction entries as [| e entries IH]; intros Hact Hnd s.
  - cbn. rewrite bool_decide_eq_false_2; [done |]. apply not_elem_of_nil.
  - apply Forall_cons in Hact as [[Hsame Hother] Hact].
    cbn [fmap list_fmap] in Hnd. apply NoDup_cons in Hnd as [Hnotin Hnd].
    cbn [fold_left]. rewrite IH by done.
    destruct (decide (e.1 = fieldKey f)) as [Heq | Hne].
    + rewrite (bool_decide_eq_false_2 (fieldKey f ∈ entries.*1))
        by (rewrite <- Heq; exact Hnotin).
      rewrite (bool_decide_eq_true_2 (fieldKey f ∈ (e :: entries).*1))
        by (cbn; rewrite Heq; set_solver).
      unfold applyDefault. rewrite Heq.
      destruct (bool_decide (fieldKey f ∈ streamMap)); [done |].
      by apply Hsame.
    + assert (Hstep : fieldOf f (applyDefault streamMap d s e) = fieldOf f s).
      { unfold applyDefault. destruct (bool_decide (e.1 ∈ streamMap)); [done |]. by apply Hother. }
      rewrite Hstep.
      replace (bool_decide (fieldKey f ∈ (e :: entries).*1))
        with (bool_decide (fieldKey f ∈ entries.*1)); [done |].
      apply bool_decide_ext. cbn. rewrite elem_of_cons.
      split; [by right | intros [? | ?]; [congruence | done]].
Qed.

Lemma setDefaultOptions_field (f : Field) (d s : ReplicationStreamConfig) :
  fieldOf f (setDefaultOptions X d s) = fieldOf f s.
Proof.
  unfold setDefaultOptions.
  destruct (SourceOptions_ s) as [so |], (SourceOptions_ d) as [dso |],
    (TargetOptions_ s) as [to |] eqn:Hto, (TargetOptions_ d) as [dto |];
    cbn; rewrite ?Hto; by destruct f.
Qed.

Lemma SetStreamDefaults_field (f : Field) (name : string)
    (stream : ReplicationStreamConfig) (rd : ReplicationConfig) :
  fieldOf f (SetStreamDefaults X name stream rd) =
  if bool_decide (fieldKey f ∈ presenceOf rd name) then fieldOf f stream
  else inheritedValue f (Defaults rd).
Proof.
  unfold SetStreamDefaults. rewrite setDefaultOptions_field.
  rewrite (fold_applyDefault f) by auto using defaultSet_acts, defaultSet_keys_NoDup.
  by rewrite (bool_decide_eq_true_2 _ (fieldKey_in_defaultSet f)).
Qed.

(** The option bags are never left nil. *)
Lemma SetStreamDefaults_SourceOptions (name : string)
    (stream : ReplicationStreamConfig) (rd : ReplicationConfig) :
  is_Some (SourceOptions_ (SetStreamDefaults X name stream rd)).
Proof.
  unfold SetStreamDefaults, setDefaultOptions.
  set (s := fold_left _ _ _).
  destruct (SourceOptions_ s) as [so |] eqn:Hso,
    (SourceOptions_ (Defaults rd)) as [dso |];
    repeat (match goal with |- context [match ?o with _ => _ end] => destruct o end);
    cbn; rewrite ?Hso; eauto.
Qed.

Lemma SetStreamDefaults_Object (name : string)
    (stream : ReplicationStreamConfig) (rd : ReplicationConfig) :
  Object (SetStreamDefaults X name stream rd) =
  if bool_decide ("object" ∈ presenceOf rd name) then Object stream
  else Object (Defaults rd).
Proof.
  pose proof (SetStreamDefaults_field FObject name stream rd) as H. cbn in H.
  destruct (bool_decide _); by injection H.
Qed.

End Defaulting.

(** C3, as stated, fails for [single]: with the key absent and the
    default unset, the stream does not receive the default's (unset)
    value but a pointer to [false]. *)
Lemma C3_single_counterexample :
  ("single" ∉ presenceOf Examples.inheriting "a") ∧
  (fieldOf FSingle
     (SetStreamDefaults (Demo.world "" []) "a" zeroStream Examples.inheriting)
   ≠ fieldOf FSingle (Defaults Examples.inheriting)).
Proof. split; [by vm_compute | by vm_compute]. Qed.

(** C3 (amended): defaulting is presence-based over exactly the fourteen
    fields: a field whose key is in the stream's raw map keeps the
    stream's value, even a zero one; a field whose key is absent receives
    the default's value, where for [single] that is a fresh pointer to
    the default's boolean (unset reads as false). *)
Theorem C3_presence_based_defaulting (X : Externals) (f : Field) (name : string)
    (stream : ReplicationStreamConfig) (rd : ReplicationConfig) :
  fieldOf f (SetStreamDefaults X name stream rd) =
  if bool_decide (fieldKey f ∈ presenceOf rd name) then fieldOf f stream
  else inheritedValue f (Defaults rd).
Proof. apply SetStreamDefaults_field. Qed.

(** ** The shape of a compilation *)

Section CompileShape.

Context (X : Externals).

Lemma matchStep_not_Err pattern gc acc kv e :
  matchStep pattern gc acc kv = Err e → acc = Err e.
Proof.
  unfold matchStep. destruct acc as [streams | e' |]; [| done | done].
  destruct kv as [streamName [c |]]; repeat case_match; done.
Qed.

Lemma MatchStreams_not_Err rd pattern e : MatchStreams X rd pattern ≠ Err e.
Proof.
  unfold MatchStreams.
  assert (H : ∀ l acc, fold_left (matchStep pattern (glob_Compile X (strings.ToLower pattern))) l acc = Err e → acc = Err e).
  { induction l as [| kv l IH]; intros acc Hacc; [done |].
    cbn in Hacc. apply IH in Hacc. by apply matchStep_not_Err in Hacc. }
  intros Hm. by apply H in Hm.
Qed.

Lemma selectTokens_not_Err rd sel matched inc exc e :
  selectTokens X rd sel matched inc exc ≠ Err e.
Proof.
  revert matched inc exc. induction sel as [| t sel IH]; intros matched inc exc; [done |].
  cbn. destruct (MatchStreams X rd t) as [streams | e' |] eqn:Hm; [apply IH | | done].
  by apply MatchStreams_not_Err in Hm.
Qed.

Lemma applyOverwrite_not_Err co stream env e : applyOverwrite co stream env ≠ Err e.
Proof. unfold applyOverwrite. repeat case_match; done. Qed.

(** What a successful compilation of a fresh configuration went through. *)
Lemma Compile_Ok_inv now co sel rd rd' calls :
  Compiled rd = false →
  Compile X now co sel rd = (Ok tt, rd', calls) →
  ∃ rdw matched0 inc exc matched rdc st,
    ProcessWildcards X rd = (Ok tt, rdw, calls) ∧
    selectTokens X rdw sel ∅ [] [] = Ok (matched0, inc, exc) ∧
    compileStreams X co (nonEmpty sel) inc exc (streamsOrdered rdw) rdw matched0
      = (Ok matched, rdc) ∧
    rd_RuntimeState X now (with_Compiled true rdc) = (Ok st, rd') ∧
    testStreamCnt X
      (if nonEmpty sel then Z.of_nat (size matched) else Z.of_nat (size (Streams rd')))
      (elements matched) (elements (dom (Streams rd'))) = None.
Proof.
  intros Hfresh Hc. unfold Compile in Hc. rewrite Hfresh in Hc.
  destruct (ProcessWildcards X rd) as [[[[] | e |] rdw] calls0]; [| done | done].
  destruct (selectTokens X rdw sel ∅ [] []) as [[[matched0 inc] exc] | e |] eqn:Hsel;
    [| done | done].
  destruct (nonEmpty inc && nonEmpty exc); [done |].
  destruct (compileStreams X co (nonEmpty sel) inc exc (streamsOrdered rdw) rdw matched0)
    as [[matched | e |] rdc] eqn:Hcs; [| done | done].
  destruct (rd_RuntimeState X now (with_Compiled true rdc)) as [[st | e |] rdf] eqn:Hst;
    [| done | done].
  match type of Hc with
  | context [testStreamCnt ?a ?b ?c ?d] =>
      destruct (testStreamCnt a b c d) eqn:Hcnt; [done |]
  end.
  simplify_eq. eexists _, _, _, _, _, _, _. repeat split; eassumption.
Qed.

Lemma rd_RuntimeState_frame now rd r rd' :
  rd_RuntimeState X now rd = (r, rd') →
  Tasks rd' = Tasks rd ∧ Compiled rd' = Compiled rd ∧ Streams rd' = Streams rd ∧
  streamsOrdered rd' = streamsOrdered rd ∧ Defaults rd' = Defaults rd ∧
  maps_Streams rd' = maps_Streams rd.
Proof.
  unfold rd_RuntimeState. intros H.
  destruct (Compiled rd) eqn:Hc; [| by simplify_eq].
  destruct (refreshTasks X (Tasks rd) _) as [[[] | e |] st]; by simplify_eq.
Qed.

Lemma compileStreams_frame co selecting inc exc names rd matched r rd' :
  compileStreams X co selecting inc exc names rd matched = (r, rd') →
  Compiled rd' = Compiled rd ∧ Streams rd' = Streams rd ∧
  streamsOrdered rd' = streamsOrdered rd ∧ Defaults rd' = Defaults rd ∧
  maps_Streams rd' = maps_Streams rd ∧ state rd' = state rd.
Proof.
  revert rd matched. induction names as [| name names IH]; intros rd matched H.
  { cbn in H. by simplify_eq. }
  cbn [compileStreams] in H.
  destruct (String.eqb _ ""); [by simplify_eq |].
  destruct (selecting && _); [by eapply IH |].
  destruct (applyOverwrite _ _ _) as [[[s i] env] | e0 |]; [| by simplify_eq | by simplify_eq].
  destruct (Prepare X _); [| by simplify_eq].
  by apply IH in H.
Qed.

(** A successful compilation leaves the configuration compiled. *)
Lemma Compile_Ok_Compiled now co sel rd rd' calls :
  Compile X now co sel rd = (Ok tt, rd', calls) → Compiled rd' = true.
Proof.
  intros Hc. destruct (Compiled rd) eqn:Hfresh.
  - unfold Compile in Hc. rewrite Hfresh in Hc. simplify_eq.
    unfold reselect. by destruct sel.
  - apply Compile_Ok_inv in Hc as (rdw & m0 & inc & exc & m & rdc & st & _ & _ & _ & Hst & _);
      [| done].
    by apply rd_RuntimeState_frame in Hst as (_ & -> & _).
Qed.

End CompileShape.

(** ** Re-compilation (C1) *)

(** C1, as stated, fails: compiling for [a] and then for [b] leaves no
    task, while a fresh configuration compiled for [b] has the task of
    [b]. *)
Lemma C1_recompile_counterexample :
  let W := Demo.world "" [] in
  let first := (Compile W 0 None ["a"] Examples.twoStreams).1.2 in
  Demo.taskNames (Compile W 0 None ["b"] first) = [] ∧
  Demo.taskNames (Compile W 0 None ["b"] Examples.twoStreams) = ["b"].
Proof. split; by vm_compute. Qed.

(** C1 (amended): on a configuration that a first [Compile] has compiled,
    a second [Compile] succeeds without any discovery and without
    touching the streams; with an empty selection it keeps the tasks,
    otherwise it keeps, in order, those of the current tasks whose stream
    name is literally one of the selected tokens. *)
Theorem C1_recompile_filters_current_tasks (X : Externals) (now1 now2 : Z)
    (co1 co2 : option Config) (sel1 sel2 : list string)
    (rd rd1 : ReplicationConfig) (calls1 : list string) :
  Compile X now1 co1 sel1 rd = (Ok tt, rd1, calls1) →
  ∃ rd2,
    Compile X now2 co2 sel2 rd1 = (Ok tt, rd2, []) ∧
    Tasks rd2 =
      (if nonEmpty sel2
       then filter (λ task, StreamName task ∈ sel2) (Tasks rd1)
       else Tasks rd1) ∧
    Streams rd2 = Streams rd1 ∧
    streamsOrdered rd2 = streamsOrdered rd1 ∧
    Compiled rd2 = true.
Proof.
  intros Hc. apply Compile_Ok_Compiled in Hc.
  exists (reselect sel2 rd1). unfold Compile. rewrite Hc.
  split; [done |]. destruct sel2; by cbn.
Qed.

Lemma C1_recompile_witness :
  ∃ rd2,
    Compile (Demo.world "" []) 1 None ["b"]
      (Compile (Demo.world "" []) 0 None ["a"] Examples.twoStreams).1.2
      = (Ok tt, rd2, []) ∧
    Tasks rd2 = [] ∧ Compiled rd2 = true.
Proof.
  destruct (C1_recompile_filters_current_tasks (Demo.world "" []) 0 1 None None
              ["a"] ["b"] Examples.twoStreams
              (Compile (Demo.world "" []) 0 None ["a"] Examples.twoStreams).1.2
              [])
    as (rd2 & H1 & H2 & _ & _ & H5); [by vm_compute |].
  exists rd2. split; [exact H1 |]. split; [| exact H5].
  rewrite H2. by vm_compute.
Defined.

(** ** The stream-count assertion (C7) *)

Section StreamCount.

Context (X : Externals).


Lemma testStreamCnt_Some streamCnt matched input e :
  testStreamCnt X streamCnt matched input = Some e →
  listedNames e = Some (matched ++ input).
Proof.
  unfold testStreamCnt. intros H.
  repeat case_match; by simplify_eq.
Qed.

Lemma refreshTasks_not_count tasks st e st' :
  refreshTasks X tasks st = (Err e, st') → e = ErrFormatMap.
Proof.
  revert st. induction tasks as [| task tasks IH]; intros st H; cbn in H; [done |].
  destruct (GetFormatMap X task); [by eapply IH | by simplify_eq].
Qed.



End StreamCount.




(** ** Null stream values (C5) *)

(** C5: where the planner meets a null stream it dereferences it.
    A null wildcard stream under a default object without stream
    variables faults in [ProcessWildcards] ([stream.TargetOptions]); a
    null stream that a selection token does not name faults in
    [MatchStreams] ([streamCfg.ID]); both faults surface in [Compile]. *)
Theorem C5_null_stream_is_dereferenced :
  let W := Demo.world "" [] in
  (ProcessWildcards W Examples.nullWildcard).1.1 = Panic ∧
  (Compile W 0 None [] Examples.nullWildcard).1.1 = Panic ∧
  MatchStreams W Examples.nullStream "b" = Panic ∧
  (Compile W 0 None ["b"] Examples.nullStream).1.1 = Panic ∧
  Demo.taskNames (Compile W 0 None [] Examples.nullStream) = ["a"; "b"].
Proof. repeat split; by vm_compute. Qed.

(** ** The runtime state (C9) *)

Section Runtime.

Context (X : Externals).

Lemma populateConn_name cs cs' conn bucket container :
  cs_Name cs = cs_Name cs' →
  populateConn X cs conn bucket container = populateConn X cs' conn bucket container.
Proof. unfold populateConn. by intros ->. Qed.

Lemma refreshTask_touch now st task fMap :
  refreshTask X (touch now st) task fMap = touch now (refreshTask X st task fMap).
Proof. reflexivity. Qed.

Lemma refreshTasks_touch now tasks st :
  refreshTasks X tasks (touch now st) =
  ((refreshTasks X tasks st).1, touch now (refreshTasks X tasks st).2).
Proof.
  revert st. induction tasks as [| task tasks IH]; intros st; cbn; [done |].
  destruct (GetFormatMap X task) as [fMap |]; [| done].
  by rewrite refreshTask_touch, IH.
Qed.

(** A refresh keeps the hooks, the environment, the timestamp, the
    connection names and every run entry it finds. *)
Lemma refreshTasks_keeps tasks st r st' :
  refreshTasks X tasks st = (r, st') →
  st_Hooks st' = st_Hooks st ∧ st_Env st' = st_Env st ∧
  st_Timestamp st' = st_Timestamp st ∧
  cs_Name (st_Source st') = cs_Name (st_Source st) ∧
  cs_Name (st_Target st') = cs_Name (st_Target st) ∧
  ∀ id run, st_Runs st !! id = Some run → st_Runs st' !! id = Some run.
Proof.
  revert st. induction tasks as [| task tasks IH]; intros st H; cbn in H.
  { by simplify_eq. }
  destruct (GetFormatMap X task) as [fMap |]; [| by simplify_eq].
  apply IH in H as (-> & -> & -> & -> & -> & Hruns). cbn.
  repeat split; try done.
  intros id run Hid. apply Hruns. cbn.
  destruct (st_Runs st !! taskRunID X task fMap) eqn:Hrun; [done |].
  rewrite lookup_insert_ne; [done | congruence].
Qed.

Lemma refreshTask_run_present st task fMap :
  is_Some (st_Runs (refreshTask X st task fMap) !! taskRunID X task fMap).
Proof.
  cbn. destruct (st_Runs st !! taskRunID X task fMap) eqn:Hrun; [by rewrite Hrun |].
  by rewrite lookup_insert_eq.
Qed.

(** From a state that already holds the final runs, and that agrees on
    the rest, the refresh ends in the same state. *)
Lemma refreshTasks_from_final tasks sta r st' stb :
  refreshTasks X tasks sta = (r, st') →
  st_Hooks stb = st_Hooks sta → st_Env stb = st_Env sta →
  st_Timestamp stb = st_Timestamp sta →
  st_Source stb = st_Source sta → st_Target stb = st_Target sta →
  st_Runs stb = st_Runs st' →
  refreshTasks X tasks stb = (r, st').
Proof.
  revert sta stb. induction tasks as [| task tasks IH];
    intros sta stb H Hh He Ht Hs Hg Hr; cbn in H |- *.
  { simplify_eq. destruct stb, st'; cbn in *; by subst. }
  destruct (GetFormatMap X task) as [fMap |].
  2: { simplify_eq. destruct stb, st'; cbn in *; by subst. }
  apply (IH (refreshTask X sta task fMap)); cbn; try done; try congruence.
  pose proof (refreshTask_run_present sta task fMap) as [run Hrun].
  apply refreshTasks_keeps in H as (_ & _ & _ & _ & _ & Hmono).
  apply Hmono in Hrun. by rewrite Hr, Hrun.
Qed.

(** Refreshing again changes nothing. *)
Lemma refreshTasks_idempotent tasks st r st' :
  refreshTasks X tasks st = (r, st') → refreshTasks X tasks st' = (r, st').
Proof.
  intros H. destruct tasks as [| task tasks]; cbn in H |- *; [by simplify_eq |].
  destruct (GetFormatMap X task) as [fMap |]; [| by simplify_eq].
  pose proof H as Hkeep.
  apply refreshTasks_keeps in Hkeep as (Hh & He & Ht & Hs & Hg & Hmono).
  cbn in Hh, He, Ht, Hs, Hg.
  apply (refreshTasks_from_final _ _ _ _ _ H); cbn; try done.
  - by apply populateConn_name.
  - by apply populateConn_name.
  - pose proof (refreshTask_run_present st task fMap) as [run Hrun].
    apply Hmono in Hrun. by rewrite Hrun.
Qed.

Lemma refreshTasks_app tasks1 tasks2 st :
  refreshTasks X (tasks1 ++ tasks2) st =
  match refreshTasks X tasks1 st with
  | (Ok _, st1) => refreshTasks X tasks2 st1
  | other => other
  end.
Proof.
  revert st. induction tasks1 as [| task tasks1 IH]; intros st; cbn; [done |].
  destruct (GetFormatMap X task); [apply IH | done].
Qed.

(** After a complete refresh the summaries are those of the last task. *)
Lemma refreshTasks_last tasks task fMap st st' :
  refreshTasks X (tasks ++ [task]) st = (Ok tt, st') →
  GetFormatMap X task = Some fMap →
  st_Source st' =
    populateConn X (st_Source st) (SrcConn task)
      (fmapString fMap "source_bucket") (fmapString fMap "source_container") ∧
  st_Target st' =
    populateConn X (st_Target st) (TgtConn task)
      (fmapString fMap "target_bucket") (fmapString fMap "target_container").
Proof.
  intros H Hf. rewrite refreshTasks_app in H.
  destruct (refreshTasks X tasks st) as [[[] | e |] st1] eqn:H1; [| done | done].
  cbn in H. rewrite Hf in H. simplify_eq. cbn.
  apply refreshTasks_keeps in H1 as (_ & _ & _ & Hs & Hg & _).
  split; by apply populateConn_name.
Qed.

End Runtime.

(** C9, as stated, fails for the summary fields: a state whose source
    summary already names the database [db1] has it overwritten by the
    next refresh. *)
Lemma C9_summary_counterexample :
  let W := Demo.world "" [] in
  let first := (rd_RuntimeState W 1 (Examples.compiledWith [Examples.taskOn "a" "db1"])).2 in
  let second := (rd_RuntimeState W 2 (with_Tasks [Examples.taskOn "b" "db2"] first)).2 in
  (cs_Database ∘ st_Source <$> state first) = Some "db1" ∧
  (cs_Database ∘ st_Source <$> state second) = Some "db2".
Proof. split; by vm_compute. Qed.

(** C9 (amended): every invocation sets the timestamp and keeps the
    connection names; for each compiled task, up to the first whose
    format map fails, it writes the source and target summary fields
    from that task, overwriting what was there (after a complete pass they
    are those of the last task), and it adds a run entry only under a
    run id that has none: an existing run entry is never overwritten.
    Invoked again on the result, it changes the timestamp alone. *)
Theorem C9_refresh_of_runtime_state (X : Externals) (now : Z) (rd : ReplicationConfig) :
  let st0 := PtrVal (initState rd) (state rd) in
  ∃ r st,
    rd_RuntimeState X now rd = (r, with_state (Some st) rd) ∧
    st_Timestamp st = now ∧
    cs_Name (st_Source st) = cs_Name (st_Source st0) ∧
    cs_Name (st_Target st) = cs_Name (st_Target st0) ∧
    (∀ id run, st_Runs st0 !! id = Some run → st_Runs st !! id = Some run) ∧
    (∀ tasks task fMap,
       Compiled rd = true → Tasks rd = tasks ++ [task] → is_Ok r = true →
       GetFormatMap X task = Some fMap →
       st_Source st =
         populateConn X (st_Source st0) (SrcConn task)
           (fmapString fMap "source_bucket") (fmapString fMap "source_container") ∧
       st_Target st =
         populateConn X (st_Target st0) (TgtConn task)
           (fmapString fMap "target_bucket") (fmapString fMap "target_container")) ∧
    (∀ now',
       ∃ r',
         rd_RuntimeState X now' (with_state (Some st) rd)
           = (r', with_state (Some (touch now' st)) rd) ∧
         is_Ok r' = is_Ok r).
Proof.
  intros st0. unfold rd_RuntimeState. fold st0.
  destruct (Compiled rd) eqn:Hc.
  - destruct (refreshTasks X (Tasks rd) (touch now st0)) as [r1 st] eqn:Hr.
    pose proof Hr as Hkeep.
    apply refreshTasks_keeps in Hkeep as (_ & _ & Ht & Hs & Hg & Hmono).
    exists (match r1 with Ok _ => Ok st | Err e => Err e | Panic => Panic end), st.
    split; [by destruct r1 as [[] | |] |].
    split; [done |]. split; [done |]. split; [done |]. split; [done |].
    split.
    + intros tasks task fMap _ Htasks Hok Hf.
      rewrite Htasks in Hr. destruct r1 as [[] | |]; [| done | done].
      by apply (refreshTasks_last X _ _ _ _ _ Hr Hf).
    + intros now'. cbn [Compiled with_state Tasks state PtrVal default].
      rewrite Hc.
      apply refreshTasks_idempotent in Hr.
      rewrite refreshTasks_touch. unfold id. rewrite Hr. cbn.
      exists (match r1 with Ok _ => Ok (touch now' st) | Err e => Err e | Panic => Panic end).
      by destruct r1 as [[] | |].
  - exists (Ok (touch now st0)), (touch now st0).
    split; [done |]. split; [done |]. split; [done |]. split; [done |].
    split; [done |]. split; [intros; congruence |].
    intros now'. cbn [Compiled with_state Tasks state PtrVal default]. rewrite Hc.
    by exists (Ok (touch now' (touch now st0))).
Qed.

Lemma C9_refresh_witness :
  ∃ st,
    st_Source st =
      populateConn (Demo.world "" []) (newConnState "PG")
        (SrcConn (Examples.taskOn "b" "db2")) "" "".
Proof.
  destruct (C9_refresh_of_runtime_state (Demo.world "" []) 1
              (Examples.compiledWith [Examples.taskOn "a" "db1"; Examples.taskOn "b" "db2"]))
    as (r & st & Hrun & _ & _ & _ & _ & Hlast & _).
  assert (Hr : r = (rd_RuntimeState (Demo.world "" []) 1
              (Examples.compiledWith [Examples.taskOn "a" "db1"; Examples.taskOn "b" "db2"])).1)
    by (by rewrite Hrun).
  destruct (Hlast [Examples.taskOn "a" "db1"] (Examples.taskOn "b" "db2")
              {["stream_name" := "b"]}) as [Hsource _];
    [reflexivity | reflexivity | rewrite Hr; by vm_compute | reflexivity |].
  exists st. rewrite Hsource. by vm_compute.
Defined.

(** ** The missing target (C6) *)

Section MissingTarget.

Context (X : Externals).

Lemma defaulted_ext rd1 rd2 name :
  Streams rd1 = Streams rd2 → maps_Streams rd1 = maps_Streams rd2 →
  Defaults rd1 = Defaults rd2 →
  defaulted X rd1 name = defaulted X rd2 name.
Proof.
  intros Hs Hm Hd. unfold defaulted, SetStreamDefaults, stream_at.
  by rewrite Hs, Hm, Hd.
Qed.

Lemma applyOverwrite_no_Panic co stream env :
  (∀ o, co = Some o → is_Some (src_Options (cfg_Source o))) →
  is_Some (SourceOptions_ stream) →
  ∃ out, applyOverwrite co stream env = Ok out.
Proof.
  intros Hco [so Hso]. unfold applyOverwrite.
  destruct co as [o |]; [| by eexists].
  destruct (Hco o eq_refl) as [oo Hoo]. rewrite Hoo.
  destruct (negb (String.eqb (cfg_Mode o) "")); cbn; rewrite Hso; by eexists.
Qed.

(** The error names a stream of the list whose defaulted object is empty. *)
Lemma compileStreams_MissingTarget co selecting inc exc names rd matched n rd' :
  compileStreams X co selecting inc exc names rd matched
    = (Err (ErrMissingTarget n), rd') →
  n ∈ names ∧ Object (defaulted X rd n) = "".
Proof.
  revert rd matched. induction names as [| name names IH]; intros rd matched H.
  { by cbn in H. }
  cbn [compileStreams] in H.
  assert (Hrec : ∀ rd0 matched0,
    Streams rd0 = Streams rd → maps_Streams rd0 = maps_Streams rd →
    Defaults rd0 = Defaults rd →
    compileStreams X co selecting inc exc names rd0 matched0
      = (Err (ErrMissingTarget n), rd') →
    n ∈ name :: names ∧ Object (defaulted X rd n) = "").
  { intros rd0 m0 Hs Hm Hd H0. apply IH in H0 as [Hn Ho].
    split; [by right |]. by rewrite <- (defaulted_ext rd0 rd). }
  destruct (String.eqb_spec
              (Object (SetStreamDefaults X name (PtrVal zeroStream (stream_at rd name)) rd)) "")
    as [Hempty | Hfull].
  { simplify_eq. split; [by left | done]. }
  destruct (selecting && _); [by eapply Hrec |].
  destruct (applyOverwrite _ _ _) as [[[s i] env] | e0 |] eqn:Ho;
    [| by apply applyOverwrite_not_Err in Ho | done].
  destruct (Prepare X _); [| done].
  by eapply Hrec; [| | | eassumption].
Qed.

(** The first stream of the list with an empty defaulted object stops
    the loop, selected or not. *)
Lemma compileStreams_first_empty co selecting inc exc pre n post rd matched :
  (∀ cfg, is_Some (Prepare X cfg)) →
  (∀ o, co = Some o → is_Some (src_Options (cfg_Source o))) →
  (∀ k, k ∈ pre → Object (defaulted X rd k) ≠ "") →
  Object (defaulted X rd n) = "" →
  (compileStreams X co selecting inc exc (pre ++ n :: post) rd matched).1
    = Err (ErrMissingTarget n).
Proof.
  intros Hprep Hco. revert rd matched.
  induction pre as [| name pre IH]; intros rd matched Hpre Hn.
  { cbn [app compileStreams]. fold (defaulted X rd n). by rewrite Hn. }
  cbn [app compileStreams]. fold (defaulted X rd name).
  destruct (String.eqb_spec (Object (defaulted X rd name)) "") as [Hempty | _].
  { exfalso. by apply (Hpre name); [left |]. }
  assert (Hrec : ∀ rd0 matched0,
    Streams rd0 = Streams rd → maps_Streams rd0 = maps_Streams rd →
    Defaults rd0 = Defaults rd →
    (compileStreams X co selecting inc exc (pre ++ n :: post) rd0 matched0).1
      = Err (ErrMissingTarget n)).
  { intros rd0 m0 Hs Hm Hd. apply IH.
    - intros k Hk. rewrite (defaulted_ext rd0 rd) by done. apply Hpre. by right.
    - by rewrite (defaulted_ext rd0 rd). }
  destruct (selecting && _); [by apply Hrec |].
  destruct (applyOverwrite_no_Panic co (defaulted X rd name) (rc_Env rd) Hco)
    as [[[s i] env] Ho]; [apply SetStreamDefaults_SourceOptions |].
  rewrite Ho. destruct (Hprep (makeTask X rd name s env i)) as [cfg Hcfg].
  rewrite Hcfg. by apply Hrec.
Qed.

End MissingTarget.

(** C6, as stated, fails: the stream [b] has no object and is not
    selected, and compilation for [a] alone is still aborted with the
    missing target of [b]. *)
Lemma C6_unselected_counterexample :
  (Compile (Demo.world "" []) 0 None ["a"] Examples.missingObject).1.1
  = Err (ErrMissingTarget "b").
Proof. by vm_compute. Qed.

(** C6 (amended): the missing-target error is raised exactly when some
    stream of the ordered list, selected or not, still has an empty
    object after defaulting and nothing failed before it is reached; the
    error carries the name of the first such stream. *)
Theorem C6_missing_target (X : Externals) (now : Z) (co : option Config)
    (sel : list string) (rd : ReplicationConfig) :
  (∀ n rd' calls,
     Compile X now co sel rd = (Err (ErrMissingTarget n), rd', calls) →
     ∃ rdw,
       ProcessWildcards X rd = (Ok tt, rdw, calls) ∧
       n ∈ streamsOrdered rdw ∧ Object (defaulted X rdw n) = "") ∧
  (∀ rdw calls matched inc exc pre n post,
     Compiled rd = false →
     ProcessWildcards X rd = (Ok tt, rdw, calls) →
     selectTokens X rdw sel ∅ [] [] = Ok (matched, inc, exc) →
     nonEmpty inc && nonEmpty exc = false →
     (∀ cfg, is_Some (Prepare X cfg)) →
     (∀ o, co = Some o → is_Some (src_Options (cfg_Source o))) →
     streamsOrdered rdw = pre ++ n :: post →
     (∀ k, k ∈ pre → Object (defaulted X rdw k) ≠ "") →
     Object (defaulted X rdw n) = "" →
     (Compile X now co sel rd).1.1 = Err (ErrMissingTarget n)).
Proof.
  split.
  - intros n rd' calls Hc. unfold Compile in Hc.
    destruct (Compiled rd); [done |].
    destruct (ProcessWildcards X rd) as [[[[] | e0 |] rdw] calls0];
      [| by simplify_eq | done].
    destruct (selectTokens X rdw sel ∅ [] []) as [[[matched0 inc] exc] | e0 |] eqn:Hsel;
      [| by apply selectTokens_not_Err in Hsel | done].
    destruct (nonEmpty inc && nonEmpty exc); [by simplify_eq |].
    destruct (compileStreams X co (nonEmpty sel) inc exc (streamsOrdered rdw) rdw matched0)
      as [[matched | e0 |] rdc] eqn:Hcs; [| | done].
    + destruct (rd_RuntimeState X now (with_Compiled true rdc)) as [[st | e0 |] rdf];
        [| by simplify_eq | done].
      match type of Hc with
      | context [testStreamCnt ?a ?b ?c ?d] =>
          destruct (testStreamCnt a b c d) as [e1 |] eqn:Hcnt; [| done]
      end.
      simplify_eq. by apply testStreamCnt_Some in Hcnt.
    + simplify_eq. apply compileStreams_MissingTarget in Hcs as [Hn Ho].
      by exists rdw.
  - intros rdw calls matched inc exc pre n post Hfresh Hpw Hsel Htags Hprep Hco
      Hord Hpre Hn.
    unfold Compile. rewrite Hfresh, Hpw, Hsel, Htags, Hord.
    pose proof (compileStreams_first_empty X co (nonEmpty sel) inc exc pre n post
                  rdw matched Hprep Hco Hpre Hn) as Hfirst.
    destruct (compileStreams X co (nonEmpty sel) inc exc (pre ++ n :: post) rdw matched)
      as [r rdc]. cbn in Hfirst. by subst r.
Qed.

Lemma C6_missing_target_witness :
  (Compile (Demo.world "" []) 0 None ["a"] Examples.missingObject).1.1
  = Err (ErrMissingTarget "b").
Proof.
  destruct (C6_missing_target (Demo.world "" []) 0 None ["a"] Examples.missingObject)
    as [_ H].
  apply (H Examples.missingObject [] {["a"]} [] [] ["a"] "b" []);
    try reflexivity.
  - intros cfg. by eexists.
  - intros o Ho. discriminate Ho.
  - intros k Hk. apply list_elem_of_singleton in Hk as ->. by vm_compute.
Defined.

(** ** Selection and letter case (C8) *)

Section Selection.

Context (X : Externals).






End Selection.




(** ** Stream bookkeeping *)

Section Bookkeeping.

Context (X : Externals).

(** A key of the map is found by [GetStream]. *)
Lemma GetStream_found_key rd name :
  name ∈ dom (Streams rd) → GetStream_found rd name = true.
Proof.
  intros Hin. apply elem_of_dom in Hin as [v Hv].
  unfold GetStream_found. apply bool_decide_eq_true_2.
  unfold GetStream.
  assert (Hel : (name, v) ∈ filter (λ kv, Normalize kv.1 = Normalize name)
                              (map_to_list (Streams rd))).
  { apply list_elem_of_filter. split; [done |]. by apply elem_of_map_to_list. }
  destruct (filter _ _) as [| kv l]; [by apply not_elem_of_nil in Hel | by eexists].
Qed.

(** [GetStream] finds a name exactly when some key has its normal form. *)
Lemma GetStream_found_spec rd name :
  GetStream_found rd name = true ↔
  ∃ key, key ∈ dom (Streams rd) ∧ Normalize key = Normalize name.
Proof.
  unfold GetStream_found, GetStream. rewrite bool_decide_eq_true. split.
  - intros [[k v] Hhead].
    apply head_Some_elem_of in Hhead.
    apply list_elem_of_filter in Hhead as [Hn Hin].
    apply elem_of_map_to_list in Hin. exists k. split; [| done].
    apply elem_of_dom. by eexists.
  - intros (key & Hin & Hn). apply elem_of_dom in Hin as [v Hv].
    assert (Hel : (key, v) ∈ filter (λ kv, Normalize kv.1 = Normalize name)
                                (map_to_list (Streams rd))).
    { apply list_elem_of_filter. split; [done |]. by apply elem_of_map_to_list. }
    destruct (filter _ _) as [| kv l]; [by apply not_elem_of_nil in Hel | by eexists].
Qed.

Lemma AddStream_Streams key cfg rd :
  Streams (AddStream X key cfg rd) = <[key := Some (copyStream cfg)]> (Streams rd).
Proof. unfold AddStream. cbn. by destruct (maps_Streams rd !! key). Qed.

Lemma AddStream_streamsOrdered key cfg rd :
  streamsOrdered (AddStream X key cfg rd) = streamsOrdered rd ++ [key].
Proof. unfold AddStream. cbn. by destruct (maps_Streams rd !! key). Qed.

Lemma AddStream_frame key cfg rd :
  Defaults (AddStream X key cfg rd) = Defaults rd ∧
  Tasks (AddStream X key cfg rd) = Tasks rd ∧
  Compiled (AddStream X key cfg rd) = Compiled rd ∧
  state (AddStream X key cfg rd) = state rd ∧
  rc_Source (AddStream X key cfg rd) = rc_Source rd ∧
  rc_Env (AddStream X key cfg rd) = rc_Env rd.
Proof. unfold AddStream. cbn. by destruct (maps_Streams rd !! key). Qed.

Lemma DeleteStream_Streams key rd :
  Streams (DeleteStream key rd) = delete key (Streams rd).
Proof. reflexivity. Qed.

Lemma DeleteStream_streamsOrdered key rd :
  streamsOrdered (DeleteStream key rd) = filter (λ v, v ≠ key) (streamsOrdered rd).
Proof. reflexivity. Qed.

(** Adding a key that is not in the map keeps the list and the map in
    step. *)
Lemma AddStream_consistent key cfg rd :
  consistent rd → key ∉ dom (Streams rd) → consistent (AddStream X key cfg rd).
Proof.
  intros [Hnd Hdom] Hnew. split.
  - rewrite AddStream_streamsOrdered. apply NoDup_app. split; [done |].
    split; [| apply NoDup_singleton].
    intros x Hx Hx'. apply list_elem_of_singleton in Hx' as ->.
    apply Hnew. by apply Hdom.
  - intros k. rewrite AddStream_streamsOrdered, AddStream_Streams.
    rewrite dom_insert, elem_of_app, list_elem_of_singleton, elem_of_union,
      elem_of_singleton, Hdom. tauto.
Qed.

Lemma DeleteStream_consistent key rd :
  consistent rd → consistent (DeleteStream key rd).
Proof.
  intros [Hnd Hdom]. split.
  - rewrite DeleteStream_streamsOrdered. by apply NoDup_filter.
  - intros k. rewrite DeleteStream_streamsOrdered, DeleteStream_Streams.
    rewrite list_elem_of_filter, dom_delete, elem_of_difference, elem_of_singleton, Hdom.
    tauto.
Qed.

(** Deleting a key leaves the other entries in their order. *)
Lemma DeleteStream_order key rd x y :
  x ≠ key → y ≠ key →
  precedes x y (streamsOrdered rd) →
  precedes x y (streamsOrdered (DeleteStream key rd)).
Proof.
  intros Hx Hy (l1 & l2 & l3 & Hl). rewrite DeleteStream_streamsOrdered, Hl.
  exists (filter (λ v, v ≠ key) l1), (filter (λ v, v ≠ key) l2),
    (filter (λ v, v ≠ key) l3).
  rewrite filter_app, filter_cons_True by done.
  by rewrite filter_app, filter_cons_True by done.
Qed.

End Bookkeeping.

(** ** The first loop of [ProcessWildcards] *)

Section Collect.

Context (X : Externals).

Lemma ObjectHasStreamVars_Object s s' :
  Object s = Object s' → ObjectHasStreamVars s = ObjectHasStreamVars s'.
Proof. unfold ObjectHasStreamVars. by intros ->. Qed.

(** Setting [single] on a stream changes the defaulted object of no
    stream. *)
Lemma defaulted_Object_set_Single rd name st value k :
  stream_at rd name = Some st →
  Object (defaulted X (with_Streams (<[name := Some (set_Single value st)]> (Streams rd)) rd) k)
  = Object (defaulted X rd k).
Proof.
  intros Hst. unfold defaulted. rewrite !SetStreamDefaults_Object.
  unfold presenceOf. cbn [maps_Streams with_Streams Defaults].
  destruct (bool_decide _); [| done].
  unfold stream_at in *. cbn [Streams with_Streams].
  destruct (decide (name = k)) as [-> | Hne].
  - rewrite lookup_insert_eq. cbn. by rewrite Hst.
  - by rewrite lookup_insert_ne.
Qed.

Lemma sameShape_refl rd : sameShape X rd rd.
Proof. by repeat split. Qed.

Lemma sameShape_trans rd1 rd2 rd3 :
  sameShape X rd1 rd2 → sameShape X rd2 rd3 → sameShape X rd1 rd3.
Proof.
  intros (H1 & H2 & H3 & H4 & H5 & H6 & H7 & H8 & H9)
         (G1 & G2 & G3 & G4 & G5 & G6 & G7 & G8 & G9).
  unfold sameShape.
  rewrite G1, G2, G3, G4, G5, G6, G7, G8.
  do 8 (split; [done |]). intros k. by rewrite G9.
Qed.

Lemma sameShape_set_Single rd name st value :
  stream_at rd name = Some st →
  sameShape X rd (with_Streams (<[name := Some (set_Single value st)]> (Streams rd)) rd).
Proof.
  intros Hst. unfold sameShape. cbn [Streams streamsOrdered Defaults maps_Streams
    Tasks Compiled state rc_Source with_Streams].
  split.
  { rewrite dom_insert_L.
    assert (Hin : name ∈ dom (Streams rd)).
    { unfold stream_at in Hst. apply elem_of_dom.
      destruct (Streams rd !! name); [by eexists | done]. }
    apply set_eq. intros k. rewrite elem_of_union, elem_of_singleton.
    split; [intros [-> | ?]; done | by right]. }
  do 7 (split; [done |]). intros k. by apply defaulted_Object_set_Single.
Qed.

Lemma collectPatterns_shape names rd patterns r rd' :
  collectPatterns X names rd patterns = (r, rd') → sameShape X rd rd'.
Proof.
  revert rd patterns. induction names as [| name names IH]; intros rd patterns H.
  { cbn in H. simplify_eq. apply sameShape_refl. }
  cbn [collectPatterns] in H.
  destruct (treatedAsSingle _ _); [by eapply IH |].
  destruct (String.eqb name "*"); [simplify_eq; apply sameShape_refl |].
  destruct (hasWildcard name); [| by eapply IH].
  destruct (negb _); [| by eapply IH].
  destruct (stream_at rd name) as [st |] eqn:Hst;
    [| simplify_eq; apply sameShape_refl].
  apply IH in H. eapply sameShape_trans; [| exact H].
  by apply sameShape_set_Single.
Qed.

(** The patterns it appends are, in order, names of the list that
    contain a wildcard, are not the bare star, and whose defaulted object
    holds a stream variable. *)
Lemma collectPatterns_patterns names rd patterns ps rd' :
  collectPatterns X names rd patterns = (Ok ps, rd') →
  ∃ new, ps = patterns ++ new ∧ new `sublist_of` names ∧
    ∀ p, p ∈ new →
      hasWildcard p = true ∧ p ≠ "*" ∧
      ObjectHasStreamVars (defaulted X rd p) = true.
Proof.
  revert rd patterns. induction names as [| name names IH]; intros rd patterns H.
  { cbn in H. simplify_eq. exists []. rewrite app_nil_r.
    split; [done |]. split; [done |]. intros p Hp. by apply not_elem_of_nil in Hp. }
  cbn [collectPatterns] in H.
  assert (Hskip : ∀ rd0,
    sameShape X rd rd0 →
    collectPatterns X names rd0 patterns = (Ok ps, rd') →
    ∃ new, ps = patterns ++ new ∧ new `sublist_of` name :: names ∧
      ∀ p, p ∈ new →
        hasWildcard p = true ∧ p ≠ "*" ∧
        ObjectHasStreamVars (defaulted X rd p) = true).
  { intros rd0 Hshape H0.
    apply IH in H0 as (new & -> & Hsub & Hnew).
    exists new. split; [done |]. split; [by apply sublist_cons |].
    intros p Hp. destruct (Hnew p Hp) as (Hw & Hstar & Hvars).
    split; [done |]. split; [done |].
    rewrite <- Hvars. apply ObjectHasStreamVars_Object.
    destruct Hshape as (_ & _ & _ & _ & _ & _ & _ & _ & Hobj). by rewrite Hobj. }
  destruct (treatedAsSingle _ _); [by apply (Hskip rd (sameShape_refl rd)) |].
  destruct (String.eqb_spec name "*") as [Hstar | Hstar]; [done |].
  destruct (hasWildcard name) eqn:Hwild;
    [| by apply (Hskip rd (sameShape_refl rd))].
  fold (defaulted X rd name) in H.
  destruct (ObjectHasStreamVars (defaulted X rd name)) eqn:Hvars; cbn [negb] in H.
  - apply IH in H as (new & -> & Hsub & Hnew).
    exists (name :: new). split; [by rewrite <- app_assoc |].
    split; [by apply sublist_skip |].
    intros p Hp. apply elem_of_cons in Hp as [-> | Hp]; [done |].
    by apply Hnew.
  - destruct (stream_at rd name) as [st |] eqn:Hst; [| done].
    eapply Hskip; [| exact H]. by apply sameShape_set_Single.
Qed.

End Collect.

(** ** Discovery *)

Section Discovery.

Context (X : Externals).


Lemma fold_insert_keyed {A} (key : A → string) (l : list A) (m : gmap string A) :
  (∀ k a, m !! k = Some a → key a = k) →
  (∀ k a, fold_left (λ m a, <[key a := a]> m) l m !! k = Some a → key a = k) ∧
  (∀ k, is_Some (m !! k) → is_Some (fold_left (λ m a, <[key a := a]> m) l m !! k)) ∧
  (∀ a, a ∈ l → is_Some (fold_left (λ m a, <[key a := a]> m) l m !! key a)).
Proof.
  revert m. induction l as [| x l IH]; intros m Hm; cbn.
  { split; [done |]. split; [done |]. intros a Ha. by apply not_elem_of_nil in Ha. }
  destruct (IH (<[key x := x]> m)) as (H1 & H2 & H3).
  { intros k a. destruct (decide (key x = k)) as [<- | Hne].
    - rewrite lookup_insert_eq. by intros [= <-].
    - rewrite lookup_insert_ne by done. apply Hm. }
  split; [done |]. split.
  - intros k Hk. apply H2. destruct (decide (key x = k)) as [<- | Hne].
    + by rewrite lookup_insert_eq.
    + by rewrite lookup_insert_ne.
  - intros a Ha. apply elem_of_cons in Ha as [-> | Ha]; [| by apply H3].
    apply H2. by rewrite lookup_insert_eq.
Qed.

Lemma tableWildcard_wellKeyed pattern tables :
  wellKeyed KindDb (tableWildcard pattern tables).
Proof.
  intros wsn Hwsn. cbn in Hwsn. apply list_elem_of_fmap in Hwsn as (t & -> & Ht).
  cbn [TableMap tableWildcard].
  destruct (fold_insert_keyed tbl_FullName tables ∅) as (H1 & _ & H3); [done |].
  destruct (H3 t Ht) as [t' Ht']. rewrite Ht'. cbn. by apply H1 in Ht'.
Qed.

Lemma nodeWildcard_wellKeyed pattern nodes :
  wellKeyed KindFile (nodeWildcard pattern nodes).
Proof.
  intros wsn Hwsn. cbn in Hwsn. apply list_elem_of_fmap in Hwsn as (n & -> & Hn).
  cbn [NodeMap nodeWildcard].
  destruct (fold_insert_keyed node_Path nodes ∅) as (H1 & _ & H3); [done |].
  destruct (H3 n Hn) as [n' Hn']. rewrite Hn'. cbn. by apply H1 in Hn'.
Qed.

(** The database loop calls the Discoverer for a sublist of the
    patterns, and on success returns one well-keyed record per call,
    holding the names the Discoverer returned. *)
Lemma discoverTables_spec c source patterns ws calls r calls' :
  lookupSource X source = ConnFound c →
  TypeKind X (conn_Type c) = KindDb →
  discoverTables X c source patterns ws calls = (r, calls') →
  ∃ called, calls' = calls ++ called ∧ called `sublist_of` patterns ∧
    ∀ ws', r = Ok ws' →
      ∃ new, ws' = ws ++ new ∧ map Pattern new = called ∧
        Forall (wellKeyed KindDb) new ∧
        Forall (λ w, discoveredNames X source (Pattern w) = Some (StreamNames w)) new.
Proof.
  intros Hc Hk. revert ws calls.
  induction patterns as [| pattern patterns IH]; intros ws calls H; cbn in H.
  { simplify_eq. exists []. rewrite app_nil_r. split; [done |]. split; [done |].
    intros ws' [= <-]. exists []. by rewrite app_nil_r. }
  destruct (ParseTableNameSchema X pattern (conn_Type c)) as [schema |].
  2: { simplify_eq. exists []. rewrite app_nil_r. split; [done |].
       split; [apply sublist_nil_l | done]. }
  destruct (String.eqb schema "").
  { apply IH in H as (called & -> & Hsub & Hok).
    exists called. split; [done |]. split; [by apply sublist_cons | done]. }
  destruct (DiscoverTables X c pattern) as [| | tables] eqn:Hd.
  1,2: simplify_eq; exists [pattern]; split; [done |];
       split; [apply sublist_skip, sublist_nil_l | done].
  apply IH in H as (called & -> & Hsub & Hok).
  exists (pattern :: called). split; [by rewrite <- app_assoc |].
  split; [by apply sublist_skip |].
  intros ws' Hr. destruct (Hok ws' Hr) as (new & -> & Hpat & Hwk & Hdn).
  exists (tableWildcard pattern tables :: new).
  split; [by rewrite <- app_assoc |]. split; [cbn; by rewrite Hpat |].
  split.
  - apply Forall_cons_2; [apply tableWildcard_wellKeyed | done].
  - apply Forall_cons_2; [| done].
    unfold discoveredNames. by rewrite Hc, Hk; cbn; rewrite Hd.
Qed.

Lemma discoverFiles_spec c source patterns ws calls r calls' :
  lookupSource X source = ConnFound c →
  TypeKind X (conn_Type c) = KindFile →
  discoverFiles X c source patterns ws calls = (r, calls') →
  ∃ called, calls' = calls ++ called ∧ called `sublist_of` patterns ∧
    ∀ ws', r = Ok ws' →
      ∃ new, ws' = ws ++ new ∧ map Pattern new = called ∧
        Forall (wellKeyed KindFile) new ∧
        Forall (λ w, discoveredNames X source (Pattern w) = Some (StreamNames w)) new.
Proof.
  intros Hc Hk. revert ws calls.
  induction patterns as [| pattern patterns IH]; intros ws calls H; cbn in H.
  { simplify_eq. exists []. rewrite app_nil_r. split; [done |]. split; [done |].
    intros ws' [= <-]. exists []. by rewrite app_nil_r. }
  destruct (if strings.Contains pattern "://" then ParseURLTypePath X pattern
            else Some pattern) as [path |] eqn:Hpath.
  2: { simplify_eq. exists []. rewrite app_nil_r. split; [done |].
       split; [apply sublist_nil_l | done]. }
  destruct (DiscoverFiles X c path) as [| | nodes] eqn:Hd.
  1,2: simplify_eq; exists [pattern]; split; [done |];
       split; [apply sublist_skip, sublist_nil_l | done].
  apply IH in H as (called & -> & Hsub & Hok).
  exists (pattern :: called). split; [by rewrite <- app_assoc |].
  split; [by apply sublist_skip |].
  intros ws' Hr. destruct (Hok ws' Hr) as (new & -> & Hpat & Hwk & Hdn).
  exists (nodeWildcard pattern nodes :: new).
  split; [by rewrite <- app_assoc |]. split; [cbn; by rewrite Hpat |].
  split.
  - apply Forall_cons_2; [apply nodeWildcard_wellKeyed | done].
  - apply Forall_cons_2; [| done].
    unfold discoveredNames. rewrite Hc, Hk. cbn [Pattern nodeWildcard].
    by rewrite Hpath, Hd.
Qed.

End Discovery.

(** ** The second loop of [ProcessWildcards] *)

Section Arrange.

Context (X : Externals).


Lemma sameRest_refl rd : sameRest rd rd.
Proof. by repeat split. Qed.

Lemma sameRest_trans rd1 rd2 rd3 :
  sameRest rd1 rd2 → sameRest rd2 rd3 → sameRest rd1 rd3.
Proof.
  intros (H1 & H2 & H3 & H4 & H5) (G1 & G2 & G3 & G4 & G5). unfold sameRest.
  by rewrite G1, G2, G3, G4, G5.
Qed.

Lemma sameRest_AddStream key cfg rd : sameRest rd (AddStream X key cfg rd).
Proof.
  destruct (AddStream_frame X key cfg rd) as (H1 & H2 & H3 & H4 & H5 & _).
  by repeat split.
Qed.

Lemma sameRest_DeleteStream key rd : sameRest rd (DeleteStream key rd).
Proof. by repeat split. Qed.

Lemma not_found_not_key rd name :
  GetStream_found rd name = false → name ∉ dom (Streams rd).
Proof.
  intros Hf Hin. apply GetStream_found_key in Hin. congruence.
Qed.

Lemma addedBy_skip rd wsn names added rd1 :
  addedBy rd names added rd1 → addedBy rd (wsn :: names) added rd1.
Proof.
  intros (H1 & H2 & H3 & H4 & H5). split; [by apply sublist_cons | done].
Qed.

Lemma addedBy_add rd key cfg names added rd1 :
  key ∉ dom (Streams rd) →
  addedBy (AddStream X key cfg rd) names added rd1 →
  addedBy rd (key :: names) (key :: added) rd1.
Proof.
  intros Hnew (H1 & H2 & H3 & H4 & H5).
  assert (Hdom : ∀ k, k ∈ dom (Streams (AddStream X key cfg rd))
                       ↔ k = key ∨ k ∈ dom (Streams rd)).
  { intros k. rewrite AddStream_Streams, dom_insert, elem_of_union, elem_of_singleton.
    tauto. }
  split; [by apply sublist_skip |]. split.
  { apply NoDup_cons. split; [| done]. intros Hin. apply (H3 key Hin).
    apply Hdom. by left. }
  split.
  { intros a Ha. apply elem_of_cons in Ha as [-> | Ha]; [done |].
    intros Hin. apply (H3 a Ha). apply Hdom. by right. }
  split.
  { intros k. rewrite H4, Hdom, elem_of_cons. tauto. }
  eapply sameRest_trans; [apply sameRest_AddStream | exact H5].
Qed.

Lemma addDiscovered_spec kind w names rd new rd1 new1 :
  (∀ wsn, wsn ∈ names →
     match kind with
     | KindDb => tbl_FullName (PtrVal zeroTable (TableMap w !! wsn)) = wsn
     | KindFile => node_Path (PtrVal zeroNode (NodeMap w !! wsn)) = wsn
     | KindOther => True
     end) →
  addDiscovered X kind w names rd new = (rd1, new1) →
  ∃ added, new1 = new ++ added ∧ addedBy rd names added rd1.
Proof.
  revert rd new. induction names as [| wsn names IH]; intros rd new Hkey H.
  { cbn in H. simplify_eq. exists []. rewrite app_nil_r. split; [done |].
    split; [done |]. split; [apply NoDup_nil_2 |].
    split; [intros a Ha; by apply not_elem_of_nil in Ha |].
    split; [| apply sameRest_refl].
    intros k. split; [by left | intros [? | Hk]; [done | by apply not_elem_of_nil in Hk]]. }
  assert (Hkey' : ∀ wsn0, wsn0 ∈ names →
     match kind with
     | KindDb => tbl_FullName (PtrVal zeroTable (TableMap w !! wsn0)) = wsn0
     | KindFile => node_Path (PtrVal zeroNode (NodeMap w !! wsn0)) = wsn0
     | KindOther => True
     end).
  { intros wsn0 Hin. apply Hkey. by right. }
  pose proof (Hkey wsn (list_elem_of_here _ _)) as Hwsn.
  cbn [addDiscovered] in H. destruct kind.
  - rewrite Hwsn in H.
    destruct (GetStream_found rd wsn) eqn:Hfound.
    + apply IH in H as (added & -> & Hadd); [| done].
      exists added. split; [done | by apply addedBy_skip].
    + apply IH in H as (added & -> & Hadd); [| done].
      exists (wsn :: added). split; [by rewrite <- app_assoc |].
      eapply addedBy_add; [by apply not_found_not_key | exact Hadd].
  - rewrite Hwsn in H.
    destruct (GetStream_found rd wsn) eqn:Hfound.
    + apply IH in H as (added & -> & Hadd); [| done].
      exists added. split; [done | by apply addedBy_skip].
    + destruct (GetStream_found rd (node_URI _)).
      * apply IH in H as (added & -> & Hadd); [| done].
        exists added. split; [done | by apply addedBy_skip].
      * apply IH in H as (added & -> & Hadd); [| done].
        exists (wsn :: added). split; [by rewrite <- app_assoc |].
        eapply addedBy_add; [by apply not_found_not_key | exact Hadd].
  - apply IH in H as (added & -> & Hadd); [| done].
    exists added. split; [done | by apply addedBy_skip].
Qed.

End Arrange.

Section ArrangeOrder.

Context (X : Externals).

Lemma expandName_unmatched kind ws o rd new matched :
  o ∉ map Pattern ws → expandName X kind ws o rd new matched = (rd, new, matched).
Proof.
  induction ws as [| w ws IH]; intros Hout; cbn; [done |].
  destruct (String.eqb_spec (Pattern w) o) as [Heq | Hne].
  - exfalso. apply Hout. cbn. rewrite Heq. by left.
  - apply IH. intros Hin. apply Hout. cbn. by right.
Qed.

(** With distinct patterns, at most one record expands a name: either
    nothing happens, or its streams are added and the pattern deleted. *)
Lemma expandName_spec kind ws o rd new matched rd1 new1 matched1 :
  NoDup (map Pattern ws) → Forall (wellKeyed kind) ws →
  expandName X kind ws o rd new matched = (rd1, new1, matched1) →
  ((o ∉ map Pattern ws) ∧ rd1 = rd ∧ new1 = new ∧ matched1 = matched) ∨
  (∃ w added rd0,
     w ∈ ws ∧ Pattern w = o ∧ matched1 = true ∧ new1 = new ++ added ∧
     addedBy rd (StreamNames w) added rd0 ∧ rd1 = DeleteStream o rd0).
Proof.
  revert rd new matched. induction ws as [| w ws IH]; intros rd new matched Hnd Hwk H.
  { cbn in H. simplify_eq. left. split; [apply not_elem_of_nil | done]. }
  cbn [map] in Hnd. apply NoDup_cons in Hnd as [Hw Hnd].
  apply Forall_cons in Hwk as [Hkeyed Hwk].
  cbn [expandName] in H.
  destruct (String.eqb_spec (Pattern w) o) as [Heq | Hne].
  - destruct (addDiscovered X kind w (StreamNames w) rd new) as [rd0 new0] eqn:Hadd.
    apply addDiscovered_spec in Hadd as (added & -> & Hadded); [| exact Hkeyed].
    rewrite expandName_unmatched in H by (by rewrite <- Heq).
    simplify_eq. right. exists w, added, rd0.
    split; [by left | done].
  - apply IH in H as [(Hout & -> & -> & ->) | (w' & added & rd0 & Hin & H')]; try done.
    + left. split; [| done]. cbn. apply not_elem_of_cons. split; [congruence | done].
    + right. exists w', added, rd0. split; [by right | done].
Qed.

Lemma arrangeStreams_spec kind ws orig rd new rd' new' :
  NoDup (map Pattern ws) → Forall (wellKeyed kind) ws →
  NoDup (new ++ orig) →
  (∀ k, k ∈ dom (Streams rd) ↔ k ∈ new ∨ k ∈ orig) →
  arrangeStreams X kind ws orig rd new = (rd', new') →
  ∃ segs,
    new' = new ++ concat segs ∧ Forall2 (segmentOf ws) orig segs ∧
    NoDup new' ∧ (∀ k, k ∈ dom (Streams rd') ↔ k ∈ new') ∧ sameRest rd rd'.
Proof.
  intros Hnd Hwk. revert rd new.
  induction orig as [| o orig IH]; intros rd new Hnew Hdom H.
  { cbn in H. simplify_eq. exists []. cbn. rewrite app_nil_r in *.
    split; [done |]. split; [done |]. split; [done |].
    split; [| apply sameRest_refl].
    intros k. rewrite Hdom. split; [intros [? | Hk]; [done | by apply not_elem_of_nil in Hk] | by left]. }
  cbn [arrangeStreams] in H.
  destruct (expandName X kind ws o rd new false) as [[rd1 new1] matched1] eqn:He.
  apply expandName_spec in He
    as [(Hout & -> & -> & ->) | (w & added & rd0 & Hin & Hpat & -> & -> & Hadded & ->)];
    try done.
  - apply IH in H as (segs & -> & Hsegs & Hnd' & Hdom' & Hrest).
    + exists ([o] :: segs). cbn [concat].
      replace (new ++ [o] ++ concat segs) with ((new ++ [o]) ++ concat segs)
        by (by rewrite <- app_assoc).
      split; [done |]. split; [| done].
      apply Forall2_cons_2; [by left | done].
    + by rewrite <- app_assoc.
    + intros k. rewrite Hdom, elem_of_app, elem_of_cons, list_elem_of_singleton. tauto.
  - destruct Hadded as (Hsub & Hnda & Hfresh & Hdom0 & Hrest0).
    assert (Ho : o ∈ dom (Streams rd)) by (apply Hdom; right; by left).
    apply NoDup_app in Hnew as (Hnd1 & Hdisj & Hnd2).
    apply NoDup_cons in Hnd2 as [Horig Hnd2].
    assert (Hoa : o ∉ added) by (intros Hoa; by apply (Hfresh o Hoa)).
    assert (Hon : o ∉ new) by (intros Hon; apply (Hdisj o Hon); by left).
    apply IH in H as (segs & -> & Hsegs & Hnd' & Hdom' & Hrest).
    + exists (added :: segs). cbn [concat].
      replace (new ++ added ++ concat segs) with ((new ++ added) ++ concat segs)
        by (by rewrite <- app_assoc).
      split; [done |]. split; [| split; [done |]; split; [done |]].
      * apply Forall2_cons_2; [| done]. right. by exists w.
      * eapply sameRest_trans; [| exact Hrest].
        eapply sameRest_trans; [exact Hrest0 | apply sameRest_DeleteStream].
    + rewrite <- app_assoc. apply NoDup_app. split; [done |]. split.
      * intros x Hx Hx'. apply elem_of_app in Hx' as [Hx' | Hx'].
        -- apply (Hfresh x Hx'). apply Hdom. by left.
        -- apply (Hdisj x Hx). by right.
      * apply NoDup_app. split; [done |]. split; [| done].
        intros x Hx Hx'. apply (Hfresh x Hx). apply Hdom. right. by right.
    + intros k. rewrite DeleteStream_Streams, dom_delete, elem_of_difference,
        elem_of_singleton, Hdom0, Hdom, elem_of_app, elem_of_cons.
      split.
      * intros [[[? | [? | ?]] | ?] Hne]; tauto.
      * intros [[? | ?] | ?]; (split; [tauto | congruence]).
Qed.

End ArrangeOrder.

(** ** [ProcessWildcards] as a whole *)

Section Wildcards.

Context (X : Externals).



Lemma sameShape_consistent rd rd0 :
  sameShape X rd rd0 → consistent rd → consistent rd0 ∧ sameRest rd rd0.
Proof.
  intros (H1 & H2 & H3 & H4 & H5 & H6 & H7 & H8 & _) [Hnd Hdom].
  split; [| by repeat split].
  split; [by rewrite H2 |]. intros k. by rewrite H2, H1.
Qed.

Lemma identity_segments rd (l : list string) :
  Forall2 (expandsTo X rd []) l (map (λ n, [n]) l) ∧ concat (map (λ n, [n]) l) = l.
Proof.
  induction l as [| n l [IH1 IH2]]; cbn; [done |].
  split; [| by rewrite IH2].
  apply Forall2_cons_2; [| done]. left. split; [apply not_elem_of_nil | done].
Qed.

Lemma sublist_elem_of (l k : list string) x : l `sublist_of` k → x ∈ l → x ∈ k.
Proof.
  intros Hsub Hx. eapply elem_of_submseteq; [exact Hx |].
  by apply sublist_submseteq.
Qed.

Lemma arranged_segments rd0 source ws calls orig segs :
  map Pattern ws = calls →
  Forall (λ w, discoveredNames X source (Pattern w) = Some (StreamNames w)) ws →
  rc_Source rd0 = source →
  Forall2 (segmentOf ws) orig segs →
  Forall2 (expandsTo X rd0 calls) orig segs.
Proof.
  intros Hpat Hdn Hsrc Hsegs.
  induction Hsegs as [| o seg orig segs Hseg Hsegs IH]; [done |].
  apply Forall2_cons_2; [| done].
  destruct Hseg as [[Hout ->] | (w & Hin & Hw & Hsub)].
  - left. by rewrite <- Hpat.
  - right. split.
    + rewrite <- Hpat, <- Hw. by apply list_elem_of_fmap_2.
    + exists (StreamNames w). split; [| done].
      rewrite Forall_forall in Hdn. rewrite Hsrc, <- Hw. by apply Hdn.
Qed.

End Wildcards.

Section WildcardsSpec.

Context (X : Externals).


Lemma processed_unchanged rd rd0 r :
  consistent rd → sameShape X rd rd0 → processed X rd r rd0 [].
Proof.
  intros Hcons Hshape.
  destruct (sameShape_consistent X rd rd0 Hshape Hcons) as [Hcons0 Hrest0].
  split; [done |]. split; [done |].
  split; [intros p Hp; by apply not_elem_of_nil in Hp |].
  intros _. exists (map (λ n, [n]) (streamsOrdered rd)).
  destruct (identity_segments X rd (streamsOrdered rd)) as [Hsegs Hconcat].
  destruct Hshape as (_ & -> & _). by rewrite Hconcat.
Qed.

Lemma processed_failed rd rd0 r called :
  consistent rd → sameShape X rd rd0 → r ≠ Ok tt →
  (∀ p, p ∈ called → expandable X rd p) →
  processed X rd r rd0 called.
Proof.
  intros Hcons Hshape Hr Hcalled.
  destruct (sameShape_consistent X rd rd0 Hshape Hcons) as [Hcons0 Hrest0].
  split; [done |]. split; [done |]. split; [done |]. intros Hok. by destruct Hr.
Qed.

Lemma processed_arranged kind rd rd0 ws called rd1 newStreamNames :
  consistent rd → sameShape X rd rd0 →
  (∀ p, p ∈ called → expandable X rd p) →
  called `sublist_of` streamsOrdered rd →
  map Pattern ws = called →
  Forall (wellKeyed kind) ws →
  Forall (λ w, discoveredNames X (rc_Source rd0) (Pattern w) = Some (StreamNames w)) ws →
  arrangeStreams X kind ws (streamsOrdered rd0) rd0 [] = (rd1, newStreamNames) →
  processed X rd (Ok tt) (with_streamsOrdered newStreamNames rd1) called.
Proof.
  intros Hcons Hshape Hcalled Hsub Hpat Hwk Hdn Harr.
  destruct (sameShape_consistent X rd rd0 Hshape Hcons) as [[Hnd0 Hdom0] Hrest0].
  assert (Horder : streamsOrdered rd0 = streamsOrdered rd) by (by destruct Hshape as (_ & -> & _)).
  assert (Hsrc : rc_Source rd0 = rc_Source rd) by (by destruct Hrest0 as (_ & _ & _ & _ & ->)).
  apply arrangeStreams_spec in Harr as (segs & -> & Hsegs & Hnd & Hdom & Hrest1).
  - split; [by split |]. split.
    { eapply sameRest_trans; [exact Hrest0 |].
      destruct Hrest1 as (H1 & H2 & H3 & H4 & H5). by repeat split. }
    split; [done |]. intros _. exists segs. split; [done |].
    rewrite <- Horder.
    assert (Hsegs' : Forall2 (expandsTo X rd0 called) (streamsOrdered rd0) segs)
      by (by eapply arranged_segments).
    unfold expandsTo in *. by rewrite <- Hsrc.
  - rewrite Hpat. eapply sublist_NoDup; [| exact Hsub]. by destruct Hcons.
  - done.
  - done.
  - intros k. rewrite <- Hdom0. split; [by right | intros [Hk | Hk]; [by apply not_elem_of_nil in Hk | done]].
Qed.

Lemma ProcessWildcards_spec rd r rd' calls :
  consistent rd →
  ProcessWildcards X rd = (r, rd', calls) →
  processed X rd r rd' calls.
Proof.
  intros Hcons H. unfold ProcessWildcards in H.
  destruct (collectPatterns X (streamsOrdered rd) rd []) as [rp rd0] eqn:Hcp.
  pose proof (collectPatterns_shape X _ _ _ _ _ Hcp) as Hshape.
  destruct rp as [patterns | e |].
  2,3: simplify_eq; by apply processed_unchanged.
  apply collectPatterns_patterns in Hcp as (new & Hps & Hsub & Hnew).
  cbn in Hps. subst patterns.
  assert (Hexp : ∀ called, called `sublist_of` new → ∀ p, p ∈ called → expandable X rd p).
  { intros called Hc p Hp. pose proof (sublist_elem_of _ _ _ Hc Hp) as Hp'.
    split; [by eapply sublist_elem_of | by apply Hnew]. }
  destruct new as [| p0 new0] eqn:Hpatterns.
  { simplify_eq. by apply processed_unchanged. }
  rewrite <- Hpatterns in *. clear Hpatterns.
  destruct (lookupSource X (rc_Source rd0)) as [c | |] eqn:Hlook.
  2,3: simplify_eq; by apply processed_unchanged.
  destruct (TypeKind X (conn_Type c)) eqn:Hkind.
  - unfold ProcessWildcardsDatabase in H.
    destruct (ConnectDatabase X c); [| simplify_eq; by apply processed_unchanged].
    destruct (discoverTables X c (rc_Source rd0) new [] []) as [rw calls0] eqn:Hdisc.
    apply discoverTables_spec in Hdisc as (called & -> & Hcsub & Hok); [| done | done].
    cbn [app] in H.
    destruct rw as [ws | e |].
    + destruct (Hok ws eq_refl) as (wsn & -> & Hpat & Hwk & Hdn). cbn [app] in *.
      destruct (arrangeStreams X KindDb wsn (streamsOrdered rd0) rd0 []) as [rd1 nn] eqn:Harr.
      simplify_eq.
      eapply processed_arranged; try done; [by apply Hexp | by etrans].
    + simplify_eq. apply processed_failed; [done | done | done | by apply Hexp].
    + simplify_eq. apply processed_failed; [done | done | done | by apply Hexp].
  - unfold ProcessWildcardsFile in H.
    destruct (ConnectFile X c); [| simplify_eq; by apply processed_unchanged].
    destruct (discoverFiles X c (rc_Source rd0) new [] []) as [rw calls0] eqn:Hdisc.
    apply discoverFiles_spec in Hdisc as (called & -> & Hcsub & Hok); [| done | done].
    cbn [app] in H.
    destruct rw as [ws | e |].
    + destruct (Hok ws eq_refl) as (wsn & -> & Hpat & Hwk & Hdn). cbn [app] in *.
      destruct (arrangeStreams X KindFile wsn (streamsOrdered rd0) rd0 []) as [rd1 nn] eqn:Harr.
      simplify_eq.
      eapply processed_arranged; try done; [by apply Hexp | by etrans].
    + simplify_eq. apply processed_failed; [done | done | done | by apply Hexp].
    + simplify_eq. apply processed_failed; [done | done | done | by apply Hexp].
  - simplify_eq. by apply processed_unchanged.
Qed.

End WildcardsSpec.

(** ** The order of the tasks *)

Section TaskOrder.

Context (X : Externals).

(** The loop of [Compile] appends tasks named after a sublist of the
    stream names, and after all of them when nothing is selected. *)
Lemma compileStreams_tasks co selecting inc exc names rd matched r rd' :
  (∀ c c', Prepare X c = Some c' → StreamName c' = StreamName c) →
  compileStreams X co selecting inc exc names rd matched = (r, rd') →
  ∃ added,
    Tasks rd' = Tasks rd ++ added ∧
    map StreamName added `sublist_of` names ∧
    (is_Ok r = true → selecting = false → map StreamName added = names).
Proof.
  intros Hprep. revert rd matched.
  induction names as [| name names IH]; intros rd matched H.
  { cbn in H. simplify_eq. exists []. by rewrite app_nil_r. }
  cbn [compileStreams] in H.
  destruct (String.eqb _ "").
  { simplify_eq. exists []. rewrite app_nil_r. split; [done |].
    split; [apply sublist_nil_l | done]. }
  destruct selecting eqn:Hsel; cbn [andb] in H.
  - destruct (negb _).
    + apply IH in H as (added & -> & Hsub & _).
      exists added. split; [done |]. split; [by apply sublist_cons | done].
    + destruct (applyOverwrite _ _ _) as [[[s i] env] | e0 |].
      2,3: simplify_eq; exists []; rewrite app_nil_r; split; [done |];
           split; [apply sublist_nil_l | done].
      destruct (Prepare X _) as [cfg |] eqn:Hcfg.
      2: { simplify_eq. exists []. rewrite app_nil_r. split; [done |].
           split; [apply sublist_nil_l | done]. }
      apply IH in H as (added & -> & Hsub & _). cbn [Tasks with_Tasks].
      exists (cfg :: added). split; [by rewrite <- app_assoc |].
      split; [| done]. cbn. rewrite (Hprep _ _ Hcfg). cbn. by apply sublist_skip.
  - destruct (applyOverwrite _ _ _) as [[[s i] env] | e0 |].
    2,3: simplify_eq; exists []; rewrite app_nil_r; split; [done |];
         split; [apply sublist_nil_l | done].
    destruct (Prepare X _) as [cfg |] eqn:Hcfg.
    2: { simplify_eq. exists []. rewrite app_nil_r. split; [done |].
         split; [apply sublist_nil_l | done]. }
    apply IH in H as (added & -> & Hsub & Hall). cbn [Tasks with_Tasks].
    exists (cfg :: added). split; [by rewrite <- app_assoc |].
    cbn. rewrite (Hprep _ _ Hcfg). cbn. split; [by apply sublist_skip |].
    intros Hok _. by rewrite Hall.
Qed.





End TaskOrder.

(** ** Order through compilation (C2) *)

Section CompiledOrder.

Context (X : Externals).

(** A successful compilation of a fresh, consistent configuration:
    every original name has become its segment of the new order, and the
    tasks are named after a sublist of the new order. *)
Lemma Compile_Ok_order now co sel rd rd' calls :
  consistent rd → Compiled rd = false → Tasks rd = [] →
  (∀ c c', Prepare X c = Some c' → StreamName c' = StreamName c) →
  Compile X now co sel rd = (Ok tt, rd', calls) →
  ∃ segs,
    Forall2 (expandsTo X rd calls) (streamsOrdered rd) segs ∧
    streamsOrdered rd' = concat segs ∧ NoDup (concat segs) ∧
    map StreamName (Tasks rd') `sublist_of` concat segs ∧
    (sel = [] → map StreamName (Tasks rd') = concat segs) ∧
    (∀ p, p ∈ calls → expandable X rd p).
Proof.
  intros Hcons Hfresh Hempty Hprep Hc.
  apply Compile_Ok_inv in Hc
    as (rdw & m0 & inc & exc & m & rdc & st & Hpw & _ & Hcs & Hst & _); [| done].
  apply ProcessWildcards_spec in Hpw as ([Hndw Hdomw] & Hrest & Hcalls & Hsegs);
    [| done].
  destruct (Hsegs eq_refl) as (segs & Horder & Hforall).
  destruct Hrest as (_ & Htasks & _).
  pose proof (compileStreams_frame X _ _ _ _ _ _ _ _ _ Hcs) as (_ & _ & Hordc & _).
  apply compileStreams_tasks in Hcs as (added & Hadded & Hsub & Hall); [| done].
  apply rd_RuntimeState_frame in Hst as (Ht & _ & _ & Ho & _).
  cbn [Tasks streamsOrdered with_Compiled] in Ht, Ho.
  rewrite Htasks, Hempty in Hadded. cbn [app] in Hadded.
  exists segs. rewrite Ht, Ho, Hordc, Hadded, <- Horder.
  split; [done |]. split; [done |]. split; [done |]. split; [done |].
  split; [| done]. intros ->. by apply Hall.
Qed.


End CompiledOrder.


Lemma consistent_from_dom (rd : ReplicationConfig) :
  NoDup (streamsOrdered rd) →
  dom (Streams rd) = list_to_set (streamsOrdered rd) →
  consistent rd.
Proof.
  intros Hnd Hdom. split; [done |]. intros key.
  by rewrite Hdom, elem_of_list_to_set.
Qed.


(** ** The single-mode short circuit (C4) *)

Section SingleMode.

Context (X : Externals).

Lemma elem_of_concat (x : string) (ls : list (list string)) :
  x ∈ concat ls ↔ ∃ l, l ∈ ls ∧ x ∈ l.
Proof.
  induction ls as [| l ls IH]; cbn.
  - split; [intros H; by apply not_elem_of_nil in H |].
    intros (l & Hl & _). by apply not_elem_of_nil in Hl.
  - rewrite elem_of_app, IH. split.
    + intros [Hx | (l' & Hl' & Hx)]; [exists l; split; [by left | done] |].
      exists l'. split; [by right | done].
    + intros (l' & Hl' & Hx). apply elem_of_cons in Hl' as [-> | Hl']; [by left |].
      right. by exists l'.
Qed.

Lemma Forall2_elem_of_l {A B} (P : A → B → Prop) l k x :
  Forall2 P l k → x ∈ l → ∃ y, y ∈ k ∧ P x y.
Proof.
  induction 1 as [| a b l k Hab _ IH]; intros Hx; [by apply not_elem_of_nil in Hx |].
  apply elem_of_cons in Hx as [-> | Hx].
  - exists b. split; [by left | done].
  - destruct (IH Hx) as (y & Hy & HP). exists y. split; [by right | done].
Qed.

(** With distinct names, a name is carried by one task or by none. *)
Lemma named_count (tasks : list Config) (name : string) :
  NoDup (map StreamName tasks) →
  length (filter (λ task, StreamName task = name) tasks) =
  if bool_decide (name ∈ map StreamName tasks) then 1 else 0.
Proof.
  induction tasks as [| t tasks IH]; intros Hnd; cbn [map].
  { rewrite bool_decide_eq_false_2; [done | apply not_elem_of_nil]. }
  cbn [map] in Hnd. apply NoDup_cons in Hnd as [Hnotin Hnd].
  rewrite filter_cons. destruct (decide (StreamName t = name)) as [Heq | Hne].
  - cbn [length]. rewrite (IH Hnd).
    rewrite (bool_decide_eq_false_2 (name ∈ map StreamName tasks)) by (by rewrite <- Heq).
    rewrite bool_decide_eq_true_2; [done |]. rewrite Heq. by left.
  - rewrite (IH Hnd). apply (f_equal (λ b : bool, if b then 1 else 0)).
    apply bool_decide_ext. rewrite elem_of_cons. split; [by right |].
    intros [? | ?]; [congruence | done].
Qed.

(** A wildcard whose defaulted object holds no stream variable is never
    handed to the Discoverer, and stays in the ordered list. *)
Lemma fixed_object_not_expanded rd W r rdw calls :
  consistent rd → W ∈ streamsOrdered rd →
  ObjectHasStreamVars (defaulted X rd W) = false →
  ProcessWildcards X rd = (r, rdw, calls) →
  (W ∉ calls) ∧ (r = Ok tt → W ∈ streamsOrdered rdw).
Proof.
  intros Hcons HW Hfixed Hpw.
  apply ProcessWildcards_spec in Hpw as (_ & _ & Hcalls & Hsegs); [| done].
  assert (Hout : W ∉ calls).
  { intros Hin. destruct (Hcalls W Hin) as (_ & _ & _ & Hvars). congruence. }
  split; [done |]. intros Hr.
  destruct (Hsegs Hr) as (segs & -> & Hforall).
  destruct (Forall2_elem_of_l _ _ _ W Hforall HW) as (seg & Hseg & [[_ ->] | [Hin _]]);
    [| done].
  apply elem_of_concat. exists [W]. split; [done | by left].
Qed.

End SingleMode.

(** C4, as stated, fails for the bare star: it is a wildcard key, its
    defaulted object [tbl] holds no stream variable, and compilation does
    not produce a task for it but is aborted. *)
Lemma C4_bare_star_counterexample :
  let out := Compile (Demo.world "" []) 0 None [] Examples.bareStar in
  hasWildcard "*" = true ∧
  ObjectHasStreamVars (defaulted (Demo.world "" []) Examples.bareStar "*") = false ∧
  out.1.1 = Err (ErrWildcards ErrInvalidWildcard) ∧
  Demo.taskNames out = [].
Proof. repeat split; by vm_compute. Qed.

(** C4 (amended): a wildcard stream key whose defaulted object holds
    none of the stream placeholders is never handed to the Discoverer,
    and when [ProcessWildcards] succeeds the key stays in the ordered
    list; whenever compilation succeeds there is at most one task named
    by the pattern, and exactly one when nothing is selected. *)
Theorem C4_single_mode_short_circuit (X : Externals) (now : Z)
    (co : option Config) (rd : ReplicationConfig) (W : string) :
  consistent rd → Compiled rd = false → Tasks rd = [] →
  (∀ c c', Prepare X c = Some c' → StreamName c' = StreamName c) →
  W ∈ streamsOrdered rd → hasWildcard W = true →
  ObjectHasStreamVars (defaulted X rd W) = false →
  (∀ r rdw calls,
     ProcessWildcards X rd = (r, rdw, calls) →
     (W ∉ calls) ∧ (r = Ok tt → W ∈ streamsOrdered rdw)) ∧
  (∀ sel rd' calls,
     Compile X now co sel rd = (Ok tt, rd', calls) →
     (W ∉ calls) ∧
     (length (tasksNamed W rd') ≤ 1)%nat ∧
     (sel = [] → length (tasksNamed W rd') = 1)).
Proof.
  intros Hcons Hfresh Hempty Hprep HW Hwild Hfixed. split.
  - intros r rdw calls Hpw. by eapply fixed_object_not_expanded.
  - intros sel rd' calls Hc.
    destruct (Compile_Ok_order X now co sel rd rd' calls Hcons Hfresh Hempty Hprep Hc)
      as (segs & Hsegs & Horder & Hnd & Hsub & Hall & Hcalls).
    assert (Hout : W ∉ calls).
    { intros Hin. destruct (Hcalls W Hin) as (_ & _ & _ & Hvars). congruence. }
    assert (Hnames : NoDup (map StreamName (Tasks rd')))
      by (by eapply sublist_NoDup).
    split; [done |]. unfold tasksNamed. rewrite (named_count _ W Hnames).
    split; [by destruct (bool_decide _); lia |].
    intros Hsel. rewrite bool_decide_eq_true_2; [done |].
    rewrite (Hall Hsel). apply elem_of_concat.
    destruct (Forall2_elem_of_l _ _ _ W Hsegs HW) as (seg & Hseg & [[_ ->] | [Hin _]]);
      [| done].
    exists [W]. split; [done | by left].
Qed.

Lemma C4_single_mode_witness :
  length (tasksNamed "public.*"
            (Compile (Demo.world "" ["public.a"]) 0 None [] Examples.fixedObject).1.2) = 1.
Proof.
  pose (W := Demo.world "" ["public.a"]).
  pose (out := Compile W 0 None [] Examples.fixedObject).
  destruct (C4_single_mode_short_circuit W 0 None Examples.fixedObject "public.*")
    as [_ Hc].
  - apply consistent_from_dom; [apply (bool_decide_unpack _); by vm_compute |].
    by vm_compute.
  - reflexivity.
  - reflexivity.
  - intros c c' Hc. cbn in Hc. by injection Hc as <-.
  - apply (bool_decide_unpack _). by vm_compute.
  - by vm_compute.
  - by vm_compute.
  - destruct (Hc [] out.1.2 out.2) as (_ & _ & Hone); [by vm_compute |].
    by apply Hone.
Defined.

(** ** Parsing keeps the list and the map in step *)

Section Parsing.

Context (X : Externals).



Lemma decodeStreams_dom entries acc strs :
  decodeStreams X entries acc = Some strs →
  ∀ k, k ∈ dom strs ↔ k ∈ dom acc ∨ k ∈ entries.*1.
Proof.
  revert acc. induction entries as [| [key value] entries IH]; intros acc H k; cbn in H.
  { simplify_eq. cbn. split; [by left | intros [? | Hk]; [done | by apply not_elem_of_nil in Hk]]. }
  assert (Hstep : ∀ v, decodeStreams X entries (<[key := v]> acc) = Some strs →
                       k ∈ dom strs ↔ k ∈ dom acc ∨ k ∈ ((key, value) :: entries).*1).
  { intros v Hv. rewrite (IH _ Hv). cbn.
    rewrite dom_insert, elem_of_union, elem_of_singleton, elem_of_cons. tauto. }
  destruct value; try (by eapply Hstep);
    destruct (DecodeStream X _); try done; by eapply Hstep.
Qed.

Lemma orderStreams_spec nodes config rd :
  orderStreams nodes config = Ok rd →
  streamsOrdered rd = streamsOrdered config ++ nodes.*1 ∧
  dom (Streams rd) = dom (Streams config).
Proof.
  revert config. induction nodes as [| [key value] nodes IH]; intros config H.
  { cbn in H. simplify_eq. by rewrite app_nil_r. }
  cbn [orderStreams] in H.
  destruct value as [| s | slice]; [| done |].
  - apply IH in H as [-> ->]. cbn. by rewrite <- app_assoc.
  - destruct (match makeColumns slice with [] => _ | _ => _ end) as [stream | |];
      [| done | done].
    destruct (streamSourceColumns slice _ stream) as [stream' | |]; [| done | done].
    destruct (bool_decide (is_Some (Streams config !! key))) eqn:Hfound.
    + apply IH in H as [-> ->]. cbn. rewrite <- app_assoc. split; [done |].
      apply bool_decide_eq_true_1 in Hfound. rewrite dom_insert_L.
      apply elem_of_dom in Hfound. apply set_eq. intros k.
      rewrite elem_of_union, elem_of_singleton. split; [intros [-> | ?]; done | by right].
    + apply IH in H as [-> ->]. cbn. by rewrite <- app_assoc.
Qed.

Lemma orderRoot_spec rootMap config rd :
  orderRoot rootMap config = Ok rd →
  streamsOrdered rd = streamsOrdered config ++ streamsKeys rootMap ∧
  dom (Streams rd) = dom (Streams config).
Proof.
  revert config. induction rootMap as [| [key value] rootMap IH]; intros config H.
  { cbn in H. simplify_eq. by rewrite app_nil_r. }
  cbn [orderRoot] in H. unfold streamsKeys. cbn [flat_map fst snd].
  fold (streamsKeys rootMap).
  destruct (String.eqb key "streams").
  - destruct value as [| s | nodes].
    + apply IH in H as [-> ->]. by cbn.
    + apply IH in H as [-> ->]. by cbn.
    + destruct (orderStreams nodes config) as [config' | |] eqn:Hos; [| done | done].
      apply orderStreams_spec in Hos as [Ho Hd].
      apply IH in H as [-> ->]. rewrite Ho, Hd. by rewrite <- app_assoc.
  - apply IH in H as [-> ->]. by cbn.
Qed.

Lemma streamsKeys_none rootMap :
  "streams" ∉ rootMap.*1 → streamsKeys rootMap = [].
Proof.
  induction rootMap as [| [key value] rootMap IH]; intros Hout; [done |].
  unfold streamsKeys. cbn [flat_map fst snd]. fold (streamsKeys rootMap).
  cbn in Hout. apply not_elem_of_cons in Hout as [Hne Hout].
  destruct (String.eqb_spec key "streams") as [-> | _]; [done |].
  by rewrite IH.
Qed.

(** In a document with distinct root keys, the ordered view and the
    unordered view see the same [streams] entry. *)
Lemma streamsKeys_unique rootMap :
  NoDup rootMap.*1 →
  is_Some (yaml_get "streams" rootMap) →
  streamsKeys rootMap = (streamEntriesOf rootMap).*1.
Proof.
  intros Hnd [v Hv]. unfold streamEntriesOf. rewrite Hv.
  unfold yaml_get in Hv. apply elem_of_list_to_map_2 in Hv.
  rewrite elem_of_reverse in Hv.
  apply list_elem_of_split in Hv as (l1 & l2 & ->).
  rewrite fmap_app in Hnd. cbn in Hnd.
  apply NoDup_app in Hnd as (_ & Hdisj & Hnd).
  apply NoDup_cons in Hnd as [Hl2 _].
  unfold streamsKeys. rewrite flat_map_app. cbn [flat_map fst snd String.eqb].
  fold (streamsKeys l1). fold (streamsKeys l2).
  rewrite (streamsKeys_none l1), (streamsKeys_none l2); try done.
  - cbn. rewrite app_nil_r. by destruct v.
  - intros Hin. apply (Hdisj _ Hin). by left.
Qed.

Lemma UnmarshalReplication_streams rootMap rd :
  UnmarshalReplication X rootMap = Ok rd →
  is_Some (yaml_get "streams" rootMap) ∧
  streamsOrdered rd = streamsKeys rootMap ∧
  ∀ k, k ∈ dom (Streams rd) ↔ k ∈ (streamEntriesOf rootMap).*1.
Proof.
  unfold UnmarshalReplication, streamEntriesOf. intros H.
  destruct (yaml_get "source" rootMap); [| done].
  destruct (yaml_get "target" rootMap); [| done].
  destruct (yaml_get "streams" rootMap) as [streams |]; [| done].
  destruct (DecodeStream X _) as [d |]; [| done].
  destruct (decodeStreams X _ ∅) as [strs |] eqn:Hdec; [| done].
  destruct (DecodeHooks X _) as [h |]; [| done].
  destruct (orderDefaults rootMap d) as [d' | |]; [| done | done].
  apply orderRoot_spec in H as [Ho Hd]. cbn in Ho, Hd.
  split; [by eexists |]. split; [done |].
  intros k. rewrite Hd, (decodeStreams_dom _ _ _ Hdec k), dom_empty, elem_of_empty.
  destruct streams; tauto.
Qed.

End Parsing.

(** ** The stream map and the ordered list (C10) *)

(** C10, as stated, fails for [AddStream]: adding a key that the map
    already holds puts it in the ordered list a second time. *)
Lemma C10_AddStream_counterexample :
  consistent Examples.twoStreams ∧
  streamsOrdered (AddStream (Demo.world "" []) "a" None Examples.twoStreams)
    = ["a"; "b"; "a"].
Proof.
  split; [| by vm_compute].
  apply consistent_from_dom; [apply (bool_decide_unpack _); by vm_compute |].
  by vm_compute.
Qed.

(** C10 (amended): the ordered list holds exactly the keys of the stream
    map, each once, after parsing a document whose mapping keys are
    distinct, and this is kept by [AddStream] for a key that is not yet
    in the map, by [DeleteStream], which also keeps the relative order of
    the remaining entries, and by [ProcessWildcards] whatever its
    outcome. *)
Theorem C10_streams_and_order_consistent (X : Externals) :
  (∀ rootMap rd,
     NoDup rootMap.*1 → NoDup (streamEntriesOf rootMap).*1 →
     UnmarshalReplication X rootMap = Ok rd →
     consistent rd ∧ streamsOrdered rd = (streamEntriesOf rootMap).*1) ∧
  (∀ key cfg rd,
     consistent rd → key ∉ dom (Streams rd) →
     consistent (AddStream X key cfg rd)) ∧
  (∀ key rd,
     consistent rd →
     consistent (DeleteStream key rd) ∧
     ∀ x y, x ≠ key → y ≠ key →
       precedes x y (streamsOrdered rd) →
       precedes x y (streamsOrdered (DeleteStream key rd))) ∧
  (∀ rd r rd' calls,
     consistent rd → ProcessWildcards X rd = (r, rd', calls) → consistent rd').
Proof.
  split; [| split; [| split]].
  - intros rootMap rd Hroot Hkeys H.
    apply UnmarshalReplication_streams in H as (Hsome & Horder & Hdom).
    rewrite (streamsKeys_unique rootMap Hroot Hsome) in Horder.
    split; [| done]. split; [by rewrite Horder |].
    intros key. by rewrite Horder, Hdom.
  - intros key cfg rd. apply AddStream_consistent.
  - intros key rd Hcons. split; [by apply DeleteStream_consistent |].
    intros x y. apply DeleteStream_order.
  - intros rd r rd' calls Hcons Hpw.
    by apply ProcessWildcards_spec in Hpw as [Hcons' _].
Qed.

Lemma C10_consistent_witness :
  (∀ rd, UnmarshalReplication (Demo.world "" []) Examples.twoStreamsYaml = Ok rd →
         consistent rd ∧ streamsOrdered rd = ["a"; "b"]) ∧
  consistent
    (ProcessWildcards (Demo.world "" ["public.a"; "public.b"]) Examples.expanding).1.2.
Proof.
  destruct (C10_streams_and_order_consistent (Demo.world "" [])) as (Hparse & _).
  destruct (C10_streams_and_order_consistent (Demo.world "" ["public.a"; "public.b"]))
    as (_ & _ & _ & Hpw).
  split.
  - intros rd Hrd. apply (Hparse Examples.twoStreamsYaml rd); [| | exact Hrd].
    + apply (bool_decide_unpack _). by vm_compute.
    + apply (bool_decide_unpack _). by vm_compute.
  - apply (Hpw Examples.expanding
             (ProcessWildcards (Demo.world "" ["public.a"; "public.b"]) Examples.expanding).1.1
             _
             (ProcessWildcards (Demo.world "" ["public.a"; "public.b"]) Examples.expanding).2).
    + apply consistent_from_dom; [apply (bool_decide_unpack _); by vm_compute |].
      by vm_compute.
    + by vm_compute.
Defined.
